(** * The multi-algorithm image registration engine

    A shallow embedding of [image_registration/algorithms.py],
    [image_registration/exceptions.py] and [image_registration/engine.py]:
    the validated value objects ([RegistrationResult], [EngineConfig]), the
    insertion-ordered registry of algorithms, and the three engine operations
    [register], [register_algorithm] and [unregister_algorithm].

    Python floats are IEEE binary64 values, embedded as Rocq's primitive
    floats, so comparisons against NaN and the exact threshold boundary
    behave as they do in the interpreter.  The f-strings of the source are
    rendered character for character ([float_repr] is [repr] of a float,
    [format_3f] is the [:.3f] format). *)

From Stdlib Require Import ZArith List String Ascii Bool Lia Floats DecimalString.
Import ListNotations.

Set Warnings "-inexact-float".

Open Scope list_scope.
Open Scope Z_scope.

(* ================================================================= *)
(** ** Python strings *)

Module PyStr.

Open Scope string_scope.

(** [str(n)] for an [int]. *)
Definition str_of_Z (n : Z) : string := NilZero.string_of_int (Z.to_int n).

Fixpoint zeros (n : nat) : string :=
  match n with
  | O => ""
  | S n' => String "0" (zeros n')
  end.

(** [s.zfill(width)] for a string of digits. *)
Definition zfill (width : nat) (s : string) : string :=
  zeros (width - String.length s) ++ s.

(** [sep.join(items)]. *)
Fixpoint join (sep : string) (items : list string) : string :=
  match items with
  | [] => ""
  | [x] => x
  | x :: rest => x ++ sep ++ join sep rest
  end.

(** [sub in s] for two strings. *)
Fixpoint contains (sub s : string) : bool :=
  prefix sub s ||
  match s with
  | EmptyString => false
  | String _ s' => contains sub s'
  end.

Lemma prefix_append (sub rest : string) : prefix sub (sub ++ rest) = true.
Proof.
  induction sub as [|ch sub IH]; cbn.
  - now destruct rest.
  - destruct (ascii_dec ch ch) as [_|ne]; [exact IH | now elim ne].
Qed.

Lemma contains_unfold (sub s : string) :
  contains sub s =
  prefix sub s || match s with EmptyString => false | String _ s' => contains sub s' end.
Proof. destruct s; reflexivity. Qed.

Lemma contains_here (sub rest : string) : contains sub (sub ++ rest) = true.
Proof. rewrite contains_unfold, prefix_append. reflexivity. Qed.

Lemma contains_skip (sub before s : string) :
  contains sub s = true -> contains sub (before ++ s) = true.
Proof.
  intros H. induction before as [|ch before IH]; cbn; [exact H|].
  rewrite IH. apply orb_true_r.
Qed.

Lemma contains_self (sub : string) : contains sub sub = true.
Proof.
  replace sub with (sub ++ "") at 2; [apply contains_here|].
  induction sub as [|ch sub IH]; cbn; [reflexivity | now rewrite IH].
Qed.

(** Every joined item is a substring of the joined text. *)
Lemma contains_join (sep x : string) (items : list string) :
  In x items -> contains x (join sep items) = true.
Proof.
  induction items as [|y rest IH]; [intros []|].
  intros [->|Hin].
  - destruct rest as [|z rest']; cbn [join].
    + apply contains_self.
    + apply contains_here.
  - destruct rest as [|z rest']; [destruct Hin|].
    cbn [join]. apply contains_skip, contains_skip, IH, Hin.
Qed.

(** *** [repr] of a [str]

    A character of a Rocq string stands for the code point of the same
    number, 0 to 255. *)

Definition single_quote : ascii := ascii_of_nat 39.
Definition double_quote : ascii := ascii_of_nat 34.
Definition backslash : ascii := ascii_of_nat 92.

Definition hex_digit (n : nat) : ascii :=
  nth n (list_ascii_of_string "0123456789abcdef") "0"%char.

(** [\xhh]. *)
Definition hex_escape (c : ascii) : string :=
  let n := nat_of_ascii c in
  String backslash
    (String "x" (String (hex_digit (n / 16)) (String (hex_digit (n mod 16)) ""))).

(** [str.isprintable] on one code point below 256: the controls, the
    no-break space and the soft hyphen are not. *)
Definition printable (c : ascii) : bool :=
  let n := nat_of_ascii c in
  ((32 <=? n) && negb (n =? 127) && negb ((128 <=? n) && (n <=? 160))
   && negb (n =? 173))%nat.

Definition escape_char (quote c : ascii) : string :=
  if Ascii.eqb c quote || Ascii.eqb c backslash then String backslash (String c "")
  else if Ascii.eqb c (ascii_of_nat 9) then String backslash "t"
  else if Ascii.eqb c (ascii_of_nat 10) then String backslash "n"
  else if Ascii.eqb c (ascii_of_nat 13) then String backslash "r"
  else if printable c then String c ""
  else hex_escape c.

Fixpoint has_char (c : ascii) (s : string) : bool :=
  match s with
  | EmptyString => false
  | String c' s' => Ascii.eqb c' c || has_char c s'
  end.

Fixpoint escape_all (quote : ascii) (s : string) : string :=
  match s with
  | EmptyString => ""
  | String c s' => escape_char quote c ++ escape_all quote s'
  end.

(** [repr(s)]: between apostrophes, or between double quotes when [s] has
    an apostrophe and no double quote. *)
Definition str_repr (s : string) : string :=
  let quote := if has_char single_quote s && negb (has_char double_quote s)
               then double_quote else single_quote in
  String quote (escape_all quote s ++ String quote "").

End PyStr.

(* ================================================================= *)
(** ** Python floats *)

Module PyFloat.

Import PyStr.

(** *** Comparisons

    [x <= y], [x < y] and [x == y] on Python floats are the IEEE
    comparisons [PrimFloat.leb], [PrimFloat.ltb] and [PrimFloat.eqb]; the
    source's [x >= y] and [x > y] are written with the operands swapped.
    The facts used about them are derived from the comparison of the
    sign/mantissa/exponent representation. *)

Definition is_nan (x : float) : bool := negb (x =? x)%float.

(** [0.0 <= x <= 1.0], the chained comparison of both [__post_init__]s. *)
Definition in_unit_interval (x : float) : bool :=
  ((0 <=? x) && (x <=? 1))%float.

Ltac split_signs :=
  repeat match goal with
         | s : bool |- _ => destruct s
         end;
  cbn in *; try congruence.

Ltac split_compares :=
  repeat match goal with
         | |- context [Pos.compare_cont Eq ?a ?b] =>
             change (Pos.compare_cont Eq a b) with (Pos.compare a b)
         | H : context [Pos.compare_cont Eq ?a ?b] |- _ =>
             change (Pos.compare_cont Eq a b) with (Pos.compare a b) in H
         | |- context [Z.compare ?a ?b] => destruct (Z.compare_spec a b)
         | H : context [Z.compare ?a ?b] |- _ => destruct (Z.compare_spec a b)
         | |- context [Pos.compare ?a ?b] => destruct (Pos.compare_spec a b)
         | H : context [Pos.compare ?a ?b] |- _ => destruct (Pos.compare_spec a b)
         end;
  cbn in *; subst; try congruence; try lia.

Lemma SFleb_ltb_trans a b c :
  SFleb a b = true -> SFltb b c = true -> SFltb a c = true.
Proof.
  unfold SFleb, SFltb.
  destruct a as [sa|sa| |sa ma ea], b as [sb|sb| |sb mb eb],
           c as [sc|sc| |sc mc ec];
    cbn; try congruence; split_signs; split_compares.
Qed.

Lemma SFltb_false_leb a b :
  a <> S754_nan -> b <> S754_nan -> SFltb a b = false -> SFleb b a = true.
Proof.
  unfold SFleb, SFltb.
  destruct a as [sa|sa| |sa ma ea], b as [sb|sb| |sb mb eb];
    cbn; try congruence; split_signs; split_compares.
Qed.

Lemma SFleb_trans a b c :
  SFleb a b = true -> SFleb b c = true -> SFleb a c = true.
Proof.
  unfold SFleb.
  destruct a as [sa|sa| |sa ma ea], b as [sb|sb| |sb mb eb],
           c as [sc|sc| |sc mc ec];
    cbn; try congruence; split_signs; split_compares.
Qed.

Lemma SFltb_leb a b : SFltb a b = true -> SFleb a b = true.
Proof. unfold SFleb, SFltb. destruct (SFcompare a b) as [[]|]; congruence. Qed.

Lemma SFeqb_leb_sym a b : SFeqb a b = true -> SFleb b a = true.
Proof.
  unfold SFleb, SFeqb.
  destruct a as [sa|sa| |sa ma ea], b as [sb|sb| |sb mb eb];
    cbn; try congruence; split_signs; split_compares.
Qed.

Lemma SFleb_not_nan a b : SFleb a b = true -> a <> S754_nan /\ b <> S754_nan.
Proof. unfold SFleb. destruct a, b; cbn; split; congruence. Qed.

Lemma SFcompare_refl a : a <> S754_nan -> SFcompare a a = Some Eq.
Proof.
  destruct a as [sa|sa| |sa ma ea]; cbn; try congruence; split_signs.
  all: intros _; rewrite Z.compare_refl;
    change (Pos.compare_cont Eq ma ma) with (Pos.compare ma ma);
    rewrite Pos.compare_refl; reflexivity.
Qed.

Open Scope float_scope.

Lemma leb_ltb_trans x y z : (x <=? y) = true -> (y <? z) = true -> (x <? z) = true.
Proof. rewrite leb_spec, !ltb_spec. apply SFleb_ltb_trans. Qed.

Lemma ltb_leb x y : (x <? y) = true -> (x <=? y) = true.
Proof. rewrite leb_spec, ltb_spec. apply SFltb_leb. Qed.

Lemma leb_trans x y z : (x <=? y) = true -> (y <=? z) = true -> (x <=? z) = true.
Proof. rewrite !leb_spec. apply SFleb_trans. Qed.

(** [x == y] implies [x >= y]. *)
Lemma eqb_geb x y : (x =? y) = true -> (y <=? x) = true.
Proof. rewrite leb_spec, eqb_spec. apply SFeqb_leb_sym. Qed.

(** A value in [[0, 1]] is not NaN, so it compares with every other such
    value. *)
Lemma unit_interval_total x y :
  in_unit_interval x = true -> in_unit_interval y = true ->
  (x <? y) = false -> (y <=? x) = true.
Proof.
  unfold in_unit_interval. rewrite !andb_true_iff, !leb_spec, ltb_spec.
  intros [Hx _] [Hy _].
  apply SFltb_false_leb; [apply (SFleb_not_nan _ _ Hx) | apply (SFleb_not_nan _ _ Hy)].
Qed.

(** NaN compares false with everything: it is outside every interval. *)
Lemma nan_outside_unit_interval x : is_nan x = true -> in_unit_interval x = false.
Proof.
  unfold is_nan, in_unit_interval. rewrite eqb_spec, !leb_spec. intros Hnan.
  destruct (Prim2SF x) as [sx|sx| |sx mx ex] eqn:Ex.
  4: { unfold SFeqb in Hnan. rewrite SFcompare_refl in Hnan; [discriminate | congruence]. }
  3: { unfold SFleb. destruct (Prim2SF 0); reflexivity. }
  all: unfold SFeqb in Hnan; rewrite SFcompare_refl in Hnan; [discriminate | congruence].
Qed.

Close Scope float_scope.
Open Scope string_scope.

(** *** Formatting

    A finite float is exactly [(-1)^s * m * 2^e]; both formats are computed
    on that exact value with integer arithmetic. *)

Definition sign_str (s : bool) : string := if s then "-" else "".

(** [num / den] rounded to the nearest integer, ties to even. *)
Definition round_half_even (num den : Z) : Z :=
  let q := num / den in
  let r := num mod den in
  match (2 * r ?= den)%Z with
  | Lt => q
  | Gt => q + 1
  | Eq => if Z.even q then q else q + 1
  end.

(** [f"{x:.3f}"]: three decimals, correctly rounded. *)
Definition format_3f (x : float) : string :=
  match Prim2SF x with
  | S754_nan => "nan"
  | S754_infinity s => sign_str s ++ "inf"
  | S754_zero s => sign_str s ++ "0.000"
  | S754_finite s m e =>
      let n := if (0 <=? e)%Z then Z.pos m * 2 ^ e * 1000
               else round_half_even (Z.pos m * 1000) (2 ^ (- e)) in
      sign_str s ++ str_of_Z (n / 1000) ++ "." ++ zfill 3 (str_of_Z (n mod 1000))
  end.

(** [d * 10^q] compared with [num / den]. *)
Definition cmp_dec (d q num den : Z) : comparison :=
  if (0 <=? q)%Z then (d * 10 ^ q * den ?= num)%Z else (d * den ?= num * 10 ^ (- q))%Z.

(** [floor (num / den / 10^q)]. *)
Definition floor_dec (q num den : Z) : Z :=
  if (0 <=? q)%Z then num / (den * 10 ^ q) else (num * 10 ^ (- q)) / den.

(** The largest [p' <= p] with [10^p' <= num / den], searched downwards. *)
Fixpoint log10_floor (fuel : nat) (p num den : Z) : Z :=
  match fuel with
  | O => p
  | S fuel' =>
      match cmp_dec 1 p num den with
      | Gt => log10_floor fuel' (p - 1) num den
      | _ => p
      end
  end.

(** Does [d * 10^q] read back as the float whose rounding interval is
    [lo / den .. hi / den]?  The end points belong to it when the mantissa is
    even. *)
Definition within (closed : bool) (d q lo hi den : Z) : bool :=
  match cmp_dec d q lo den, cmp_dec d q hi den with
  | Gt, Lt => true
  | Eq, Lt | Gt, Eq => closed
  | _, _ => false
  end.

(** The shortest decimal [d * 10^q] inside the rounding interval, nearest to
    the float among those of that length: with [k] significant digits the two
    candidates are the neighbours of [num / den] on the grid of step
    [10^q]. *)
Fixpoint shortest (fuel : nat) (k p : Z) (closed : bool) (num lo hi den : Z) : Z * Z :=
  let q := p - k + 1 in
  let dlo := floor_dec q num den in
  let dhi := dlo + 1 in
  match fuel with
  | O => (dlo, q)
  | S fuel' =>
      match within closed dlo q lo hi den, within closed dhi q lo hi den with
      | true, false => (dlo, q)
      | false, true => (dhi, q)
      | true, true =>
          match cmp_dec (2 * dlo + 1) q (2 * num) den with
          | Gt => (dlo, q)
          | Lt => (dhi, q)
          | Eq => if Z.even dlo then (dlo, q) else (dhi, q)
          end
      | false, false => shortest fuel' (k + 1) p closed num lo hi den
      end
  end.

Fixpoint strip_zeros (fuel : nat) (d q : Z) : Z * Z :=
  match fuel with
  | O => (d, q)
  | S fuel' =>
      if ((d mod 10 =? 0) && negb (d =? 0))%Z
      then strip_zeros fuel' (d / 10) (q + 1)
      else (d, q)
  end.

(** Digits and decimal point position of [m * 2^e]: the value is
    [0.digits * 10^decpt].  Everything is scaled by [2^(e-2)] so that the
    float is [4m] and its rounding interval ends at [4m + 2] above and
    [4m - 2] below ([4m - 1] at a power of two, where the floats below are
    twice as dense). *)
Definition shortest_digits (m : positive) (e : Z) : string * Z :=
  let scale := 2 ^ (Z.max 0 (e - 2)) in
  let den := 2 ^ (Z.max 0 (2 - e)) in
  let num := 4 * Z.pos m * scale in
  let gap := if ((Z.pos m =? 2 ^ 52) && (-1074 <? e))%Z then 1 else 2 in
  let lo := (4 * Z.pos m - gap) * scale in
  let hi := (4 * Z.pos m + 2) * scale in
  let p0 := ((Z.log2 num - Z.log2 den + 1) * 30103) / 100000 + 1 in
  let p := log10_floor 700 p0 num den in
  let '(d, q) := shortest 17 1 p (Z.even (Z.pos m)) num lo hi den in
  let '(d, q) := strip_zeros 20 d q in
  let ds := str_of_Z d in
  (ds, q + Z.of_nat (String.length ds)).

(** Layout of [repr]: exponent notation when the decimal point would fall
    more than three zeros before the digits or past sixteen digits. *)
Definition repr_digits (ds : string) (decpt : Z) : string :=
  let n := Z.of_nat (String.length ds) in
  if ((decpt <=? -4) || (16 <? decpt))%Z then
    let mant := match ds with
                | String c (String _ _ as rest) => String c ("." ++ rest)
                | _ => ds
                end in
    let ex := decpt - 1 in
    mant ++ "e" ++ (if (ex <? 0)%Z then "-" else "+") ++ zfill 2 (str_of_Z (Z.abs ex))
  else if (decpt <=? 0)%Z then "0." ++ zeros (Z.to_nat (- decpt)) ++ ds
  else if (n <=? decpt)%Z then ds ++ zeros (Z.to_nat (decpt - n)) ++ ".0"
  else substring 0 (Z.to_nat decpt) ds ++ "." ++
       substring (Z.to_nat decpt) (Z.to_nat (n - decpt)) ds.

(** [f"{x}"], that is [repr(x)]: the shortest decimal that reads back as
    [x]. *)
Definition float_repr (x : float) : string :=
  match Prim2SF x with
  | S754_nan => "nan"
  | S754_infinity s => sign_str s ++ "inf"
  | S754_zero s => sign_str s ++ "0.0"
  | S754_finite s m e =>
      let '(ds, decpt) := shortest_digits m e in
      sign_str s ++ repr_digits ds decpt
  end.

Example float_repr_samples :
  map float_repr [0.85; 0.6; 1.5; -0.1; 1; 0; 1e-05; 1e+16]%float
  = ["0.85"; "0.6"; "1.5"; "-0.1"; "1.0"; "0.0"; "1e-05"; "1e+16"].
Proof. vm_compute. reflexivity. Qed.

Example format_3f_samples :
  map format_3f [0.7; 0.92; 0.0625; 0.9995; 0.4; -0.0001]%float
  = ["0.700"; "0.920"; "0.062"; "1.000"; "0.400"; "-0.000"].
Proof. vm_compute. reflexivity. Qed.

End PyFloat.

(* ================================================================= *)
(** ** Exceptions *)

(** The exception classes that occur: the three of [exceptions.py], the
    built-in ones the source raises, and [RuntimeError] for what an algorithm
    may raise.  Every one of them derives from [Exception], which is what
    the engine's [except Exception] names; each is built from one string.
    What does not derive from [Exception] ([KeyboardInterrupt],
    [SystemExit], [GeneratorExit]) is the subject of [Engine.Full]. *)
Inductive PyException : Type :=
| ValueError (msg : string)
| KeyError (key : string)
| AssertionError
| RuntimeError (msg : string)
| RegistrationError (msg : string)
| AlgorithmError (msg : string)
| ConfigurationError (msg : string).

(** [isinstance(e, ConfigurationError)].  [ConfigurationError] and
    [AlgorithmError] derive from [RegistrationError]; [ValueError] does
    not. *)
Definition is_ConfigurationError (e : PyException) : bool :=
  match e with
  | ConfigurationError _ => true
  | _ => false
  end.

(** [str(e)], as interpolated by [f"{e}"]: the argument, and for a
    [KeyError] the [repr] of the key. *)
Definition exc_str (e : PyException) : string :=
  match e with
  | ValueError msg | RuntimeError msg | RegistrationError msg
  | AlgorithmError msg | ConfigurationError msg => msg
  | KeyError key => PyStr.str_repr key
  | AssertionError => ""%string
  end.

(** The outcome of evaluating Python code: a value, or a raised
    exception. *)
Inductive Result (A : Type) : Type :=
| Ok (a : A)
| Raise (e : PyException).

Arguments Ok {A} a.
Arguments Raise {A} e.

Definition raises_with {A} (test : PyException -> bool) (r : Result A) : bool :=
  match r with
  | Ok _ => false
  | Raise e => test e
  end.

(* ================================================================= *)
(** ** Insertion-ordered dictionaries with string keys *)

Module Dict.

(** A [dict] in iteration order.  A dictionary built by Python has no
    repeated key ([wf]). *)
Definition dict (V : Type) : Type := list (string * V).

Definition keys {V} (d : dict V) : list string := map fst d.

Definition wf {V} (d : dict V) : Prop := NoDup (keys d).

(** [len(d)]. *)
Definition len {V} (d : dict V) : nat := List.length d.

(** [k in d]. *)
Fixpoint contains {V} (k : string) (d : dict V) : bool :=
  match d with
  | [] => false
  | (k', _) :: d' => String.eqb k' k || contains k d'
  end.

(** [d[k] = v]: an existing key keeps its slot and gets the new value, a
    new key takes the next slot at the end. *)
Fixpoint setitem {V} (k : string) (v : V) (d : dict V) : dict V :=
  match d with
  | [] => [(k, v)]
  | (k', v') :: d' =>
      if String.eqb k' k then (k', v) :: d' else (k', v') :: setitem k v d'
  end.

(** [del d[k]]; [None] stands for the [KeyError] of a missing key. *)
Fixpoint delitem {V} (k : string) (d : dict V) : option (dict V) :=
  match d with
  | [] => None
  | (k', v') :: d' =>
      if String.eqb k' k then Some d'
      else match delitem k d' with
           | Some d'' => Some ((k', v') :: d'')
           | None => None
           end
  end.

Lemma contains_In {V} (k : string) (d : dict V) :
  contains k d = true <-> In k (keys d).
Proof.
  induction d as [|[k' v] d IH]; cbn; [intuition congruence|].
  rewrite orb_true_iff, String.eqb_eq, IH. reflexivity.
Qed.

Lemma contains_false_In {V} (k : string) (d : dict V) :
  contains k d = false <-> ~ In k (keys d).
Proof.
  rewrite <- contains_In. destruct (contains k d); intuition congruence.
Qed.

Lemma setitem_absent {V} (k : string) (v : V) (d : dict V) :
  contains k d = false -> setitem k v d = d ++ [(k, v)].
Proof.
  induction d as [|[k' v'] d IH]; cbn; [reflexivity|].
  rewrite orb_false_iff. intros [-> Hd]. now rewrite IH.
Qed.

Lemma setitem_present {V} (k : string) (v : V) (d : dict V) :
  contains k d = true ->
  exists before old after,
    d = before ++ (k, old) :: after /\
    ~ In k (keys before) /\
    setitem k v d = before ++ (k, v) :: after.
Proof.
  induction d as [|[k' v'] d IH]; cbn; [discriminate|].
  destruct (String.eqb k' k) eqn:E; cbn.
  - apply String.eqb_eq in E as ->. intros _.
    exists [], v', d. cbn. intuition.
  - intros Hd. destruct (IH Hd) as (before & old & after & -> & Hnot & ->).
    exists ((k', v') :: before), old, after. cbn.
    apply String.eqb_neq in E. intuition.
Qed.

Lemma keys_setitem_present {V} (k : string) (v : V) (d : dict V) :
  contains k d = true -> keys (setitem k v d) = keys d.
Proof.
  intros H. destruct (setitem_present k v d H) as (b & o & a & -> & _ & ->).
  unfold keys. rewrite !map_app. reflexivity.
Qed.

Lemma setitem_wf {V} (k : string) (v : V) (d : dict V) :
  wf d -> wf (setitem k v d).
Proof.
  unfold wf. intros Hd. destruct (contains k d) eqn:E.
  - now rewrite keys_setitem_present.
  - rewrite setitem_absent by exact E.
    unfold keys. rewrite map_app. cbn.
    apply NoDup_app; [exact Hd | repeat constructor; intros [] |].
    intros x Hx [<- | []]. apply contains_false_In in E. contradiction.
Qed.

Lemma delitem_contains {V} (k : string) (d : dict V) :
  contains k d = true -> exists d', delitem k d = Some d' /\ S (len d') = len d.
Proof.
  induction d as [|[k' v'] d IH]; cbn; [discriminate|].
  destruct (String.eqb k' k); cbn.
  - intros _. now exists d.
  - intros Hd. destruct (IH Hd) as (d' & -> & Hlen).
    exists ((k', v') :: d'). split; [reflexivity|].
    unfold len in *. cbn. f_equal. exact Hlen.
Qed.

(** The dictionary without the entry of [k], the others in their order. *)
Definition without {V} (k : string) (d : dict V) : dict V :=
  filter (fun item => negb (String.eqb (fst item) k)) d.

Lemma without_absent {V} (k : string) (d : dict V) :
  contains k d = false -> without k d = d.
Proof.
  unfold without. induction d as [|[k' v'] d IH]; cbn; [reflexivity|].
  rewrite orb_false_iff. intros [-> Hd]. cbn. now rewrite IH.
Qed.

Lemma delitem_without {V} (k : string) (d : dict V) :
  wf d -> contains k d = true -> delitem k d = Some (without k d).
Proof.
  unfold wf, without. induction d as [|[k' v'] d IH]; cbn; [discriminate|].
  intros Hd. inversion Hd as [|? ? Hnotin Hd']; subst.
  destruct (String.eqb k' k) eqn:E; cbn.
  - intros _. apply String.eqb_eq in E as ->.
    apply contains_false_In in Hnotin.
    pose proof (without_absent k d Hnotin) as Hsame. unfold without in Hsame.
    now rewrite Hsame.
  - intros Hin. rewrite (IH Hd' Hin). reflexivity.
Qed.

Lemma contains_without {V} (k : string) (d : dict V) :
  contains k (without k d) = false.
Proof.
  unfold without. induction d as [|[k' v'] d IH]; cbn; [reflexivity|].
  destruct (String.eqb k' k) eqn:E; cbn; [exact IH|]. now rewrite E, IH.
Qed.

Lemma without_wf {V} (k : string) (d : dict V) : wf d -> wf (without k d).
Proof.
  unfold wf, keys, without. induction d as [|[k' v'] d IH]; cbn; [trivial|].
  intros Hd. inversion Hd as [|? ? Hnotin Hd']; subst.
  destruct (String.eqb k' k); cbn; [now apply IH|].
  constructor; [|now apply IH].
  intros Hin. apply Hnotin. apply in_map_iff in Hin as ([k2 v2] & Hk & Hin).
  apply filter_In in Hin as [Hin _]. apply in_map_iff. now exists (k2, v2).
Qed.

Lemma delitem_appended {V} (k : string) (v : V) (d : dict V) :
  contains k d = false -> delitem k (d ++ [(k, v)]) = Some d.
Proof.
  induction d as [|[k' v'] d IH]; cbn.
  - now rewrite String.eqb_refl.
  - rewrite orb_false_iff. intros [-> Hd]. now rewrite (IH Hd).
Qed.

Lemma contains_appended {V} (k : string) (v : V) (d : dict V) :
  contains k (d ++ [(k, v)]) = true.
Proof.
  induction d as [|[k' v'] d IH]; cbn.
  - now rewrite String.eqb_refl.
  - rewrite IH. apply orb_true_r.
Qed.

End Dict.

(* ================================================================= *)
(** ** The engine *)

Module Engine.

Import PyStr PyFloat.
Import Dict(dict).

Inductive LogLevel : Type := DEBUG | INFO | WARNING | ERROR.

(** What a call leaves behind outside the engine object: the records handed
    to the logger, and the entries of the registry whose [align] was
    entered (what a spy wrapped around the algorithms would record). *)
Inductive Event : Type :=
| LogRecord (level : LogLevel) (msg : string)
| AlignCall (name : string).

Fixpoint align_calls (evs : list Event) : list string :=
  match evs with
  | [] => []
  | AlignCall name :: evs' => name :: align_calls evs'
  | LogRecord _ _ :: evs' => align_calls evs'
  end.

Section Model.

(** The payloads typed [Any] in the source.  The engine passes them along
    and never looks inside. *)
Context {Image Homography Metadata : Type}.

Open Scope string_scope.

(** *** algorithms.py *)

Record RegistrationResult : Type := mkRegistrationResult {
  score : float;
  inlier_ratio : float;
  homography : Homography;
  matches_count : Z;
  metadata : option Metadata
}.

(** [RegistrationResult.__post_init__]. *)
Definition RegistrationResult_post_init (self : RegistrationResult) : Result unit :=
  if negb (in_unit_interval (score self)) then
    Raise (ValueError ("Score must be in [0.0, 1.0], got " ++ float_repr (score self)))
  else if negb (in_unit_interval (inlier_ratio self)) then
    Raise (ValueError ("Inlier ratio must be in [0.0, 1.0], got "
                       ++ float_repr (inlier_ratio self)))
  else if (matches_count self <? 0)%Z then
    Raise (ValueError ("Matches count must be >= 0, got "
                       ++ str_of_Z (matches_count self)))
  else Ok tt.

(** [RegistrationResult(score, inlier_ratio, homography, matches_count,
    metadata)]: the generated [__init__] stores the fields, then runs
    [__post_init__]. *)
Definition RegistrationResult_new (score inlier_ratio : float)
    (homography : Homography) (matches_count : Z) (metadata : option Metadata)
  : Result RegistrationResult :=
  let self := mkRegistrationResult score inlier_ratio homography matches_count metadata in
  match RegistrationResult_post_init self with
  | Ok _ => Ok self
  | Raise e => Raise e
  end.

(** An instance that went through its constructor. *)
Definition valid_result (r : RegistrationResult) : Prop :=
  RegistrationResult_post_init r = Ok tt.

(** [AlgorithmBase]: the one abstract method.  An algorithm is a function of
    the two images: it returns a result, returns [None], or raises. *)
Record AlgorithmBase : Type := mkAlgorithm {
  align : Image -> Image -> Result (option RegistrationResult)
}.

(** *** engine.py: the value objects *)

Record EngineConfig : Type := mkEngineConfig {
  min_score : float;
  min_inlier_ratio : float;
  enable_fallback : bool
}.

(** [EngineConfig.__post_init__]. *)
Definition EngineConfig_post_init (self : EngineConfig) : Result unit :=
  if negb (in_unit_interval (min_score self)) then
    Raise (ValueError ("min_score must be in [0.0, 1.0], got "
                       ++ float_repr (min_score self)))
  else if negb (in_unit_interval (min_inlier_ratio self)) then
    Raise (ValueError ("min_inlier_ratio must be in [0.0, 1.0], got "
                       ++ float_repr (min_inlier_ratio self)))
  else Ok tt.

(** [EngineConfig(min_score, min_inlier_ratio, enable_fallback)]. *)
Definition EngineConfig_new (min_score min_inlier_ratio : float)
    (enable_fallback : bool) : Result EngineConfig :=
  let self := mkEngineConfig min_score min_inlier_ratio enable_fallback in
  match EngineConfig_post_init self with
  | Ok _ => Ok self
  | Raise e => Raise e
  end.

(** [EngineConfig()]: the field defaults. *)
Definition EngineConfig_default : Result EngineConfig :=
  EngineConfig_new 0.85 0.6 true.

Record RegistrationOutput : Type := mkRegistrationOutput {
  algorithm : string;
  status : string;
  result : RegistrationResult;
  attempts : list string
}.

(** *** engine.py: the engine object *)

(** The attributes of an [ImageRegistrationEngine].  The logger is a
    collaborator; what is sent to it is kept in the events of the [World].
    The registry is held by value: a caller that keeps the dictionary it
    passed to the constructor and changes it later is outside the model. *)
Record ImageRegistrationEngine : Type := mkEngine {
  algorithms : dict AlgorithmBase;
  config : EngineConfig
}.

(** [ImageRegistrationEngine.__init__]. *)
Definition ImageRegistrationEngine_init (algorithms : dict AlgorithmBase)
    (config : option EngineConfig) : Result ImageRegistrationEngine :=
  match algorithms with
  | [] => Raise (ConfigurationError "At least one algorithm must be provided")
  | _ :: _ =>
      match (match config with
             | Some c => Ok c
             | None => EngineConfig_default
             end) with
      | Ok cfg => Ok (mkEngine algorithms cfg)
      | Raise e => Raise e
      end
  end.

(** *** Methods as state transformers

    A method runs against the engine object and the events so far; it
    returns or raises, and leaves a new state behind. *)

Record World : Type := mkWorld {
  engine : ImageRegistrationEngine;
  events : list Event
}.

Definition M (A : Type) : Type := World -> Result A * World.

Definition ret {A} (a : A) : M A := fun w => (Ok a, w).

Definition raise {A} (e : PyException) : M A := fun w => (Raise e, w).

Definition bind {A B} (m : M A) (k : A -> M B) : M B :=
  fun w =>
    match m w with
    | (Ok a, w') => k a w'
    | (Raise e, w') => (Raise e, w')
    end.

(** [try: body / except Exception as e: handler].  Every [PyException] is
    an [Exception]; for a body that may raise outside [Exception] see
    [Full.try_except]. *)
Definition try_except {A} (body : M A) (handler : PyException -> M A) : M A :=
  fun w =>
    match body w with
    | (Ok a, w') => (Ok a, w')
    | (Raise e, w') => handler e w'
    end.

Local Notation "x <- m ;; k" := (bind m (fun x => k))
  (at level 61, m at next level, right associativity).
Local Notation "m ;; k" := (bind m (fun _ => k))
  (at level 61, right associativity).

Definition get_algorithms : M (dict AlgorithmBase) :=
  fun w => (Ok (algorithms (engine w)), w).

Definition get_config : M EngineConfig :=
  fun w => (Ok (config (engine w)), w).

Definition set_algorithms (d : dict AlgorithmBase) : M unit :=
  fun w => (Ok tt, mkWorld (mkEngine d (config (engine w))) (events w)).

Definition emit (ev : Event) : M unit :=
  fun w => (Ok tt, mkWorld (engine w) (events w ++ [ev])).

Definition log (level : LogLevel) (msg : string) : M unit :=
  emit (LogRecord level msg).

(** [algo.align(src_img, ref_img)] for the registry entry [name]. *)
Definition call_align (name : string) (algo : AlgorithmBase)
    (src_img ref_img : Image) : M (option RegistrationResult) :=
  emit (AlignCall name) ;;
  fun w => (align algo src_img ref_img, w).

(** [ImageRegistrationEngine._is_acceptable]. *)
Definition meets_thresholds (cfg : EngineConfig) (result : RegistrationResult) : bool :=
  ((min_score cfg <=? score result) &&
   (min_inlier_ratio cfg <=? inlier_ratio result))%float.

Definition _is_acceptable (result : RegistrationResult) : M bool :=
  cfg <- get_config ;;
  ret (meets_thresholds cfg result).

(** The block "Track best result seen so far":
    [if best_result is None or result.score > best_result.score]. *)
Definition track_best (best_result : option RegistrationResult)
    (best_algorithm : option string) (name : string) (result : RegistrationResult)
  : option RegistrationResult * option string :=
  if match best_result with
     | None => true
     | Some best => (score best <? score result)%float
     end
  then (Some result, Some name)
  else (best_result, best_algorithm).

(** How the [for] loop of [register] ends: by the [return] inside it, or by
    running out of entries with the three local variables as they are. *)
Inductive LoopExit : Type :=
| Returned (out : RegistrationOutput)
| Exhausted (best_result : option RegistrationResult)
            (best_algorithm : option string) (attempts : list string).

(** [for name, algo in self.algorithms.items(): ...] *)
Fixpoint register_loop (src_img ref_img : Image)
    (items : list (string * AlgorithmBase))
    (best_result : option RegistrationResult) (best_algorithm : option string)
    (attempts : list string) : M LoopExit :=
  match items with
  | [] => ret (Exhausted best_result best_algorithm attempts)
  | (name, algo) :: rest =>
      let attempts := (attempts ++ [name])%list in
      log DEBUG ("Attempting algorithm: " ++ name) ;;
      outcome <- try_except
                   (result <- call_align name algo src_img ref_img ;;
                    ret (Some result))
                   (fun e =>
                      log WARNING ("Algorithm " ++ name ++ " raised exception: "
                                   ++ exc_str e) ;;
                      ret None) ;;
      match outcome with
      | None =>
          register_loop src_img ref_img rest best_result best_algorithm attempts
      | Some None =>
          log DEBUG ("Algorithm " ++ name ++ " returned None (no valid alignment)") ;;
          register_loop src_img ref_img rest best_result best_algorithm attempts
      | Some (Some result) =>
          log DEBUG ("Algorithm " ++ name ++ ": score=" ++ format_3f (score result)
                     ++ ", inlier_ratio=" ++ format_3f (inlier_ratio result)
                     ++ ", matches=" ++ str_of_Z (matches_count result)) ;;
          let '(best_result, best_algorithm) :=
            track_best best_result best_algorithm name result in
          acceptable <- _is_acceptable result ;;
          if acceptable : bool then
            log INFO ("Accepted result from " ++ name ++ " (score="
                      ++ format_3f (score result) ++ ", inlier_ratio="
                      ++ format_3f (inlier_ratio result) ++ ")") ;;
            ret (Returned (mkRegistrationOutput name "accepted" result attempts))
          else
            register_loop src_img ref_img rest best_result best_algorithm attempts
      end
  end.

(** [f"{best_algorithm}"] for the [Optional[str]] local. *)
Definition str_of_optional (name : option string) : string :=
  match name with
  | Some s => s
  | None => "None"
  end.

Definition no_homography_message (attempts : list string) : string :=
  "No alignment produced a valid homography. Attempted: " ++ join ", " attempts.

Definition below_thresholds_message (cfg : EngineConfig)
    (best_result : RegistrationResult) (best_algorithm : option string) : string :=
  "No alignment met quality thresholds (min_score=" ++ float_repr (min_score cfg)
  ++ ", min_inlier_ratio=" ++ float_repr (min_inlier_ratio cfg)
  ++ "). Best score: " ++ format_3f (score best_result)
  ++ " from " ++ str_of_optional best_algorithm.

(** [ImageRegistrationEngine.register]. *)
Definition register (src_img ref_img : Image) : M RegistrationOutput :=
  algos <- get_algorithms ;;
  log INFO ("Starting registration with "
            ++ str_of_Z (Z.of_nat (Dict.len algos)) ++ " algorithms") ;;
  exit <- register_loop src_img ref_img algos None None [] ;;
  match exit with
  | Returned out => ret out
  | Exhausted None _ attempts =>
      log ERROR "No algorithm produced a valid homography" ;;
      raise (RegistrationError (no_homography_message attempts))
  | Exhausted (Some best_result) best_algorithm attempts =>
      cfg <- get_config ;;
      if negb (enable_fallback cfg) then
        log ERROR ("Best result from " ++ str_of_optional best_algorithm
                   ++ " did not meet thresholds and fallback is disabled") ;;
        raise (RegistrationError
                 (below_thresholds_message cfg best_result best_algorithm))
      else
        log WARNING ("Using fallback result from " ++ str_of_optional best_algorithm
                     ++ " with score=" ++ format_3f (score best_result)
                     ++ " (below threshold=" ++ float_repr (min_score cfg) ++ ")") ;;
        match best_algorithm with
        | None => raise AssertionError
        | Some name =>
            ret (mkRegistrationOutput name "fallback_low_confidence"
                                      best_result attempts)
        end
  end.

(** [ImageRegistrationEngine.register_algorithm]. *)
Definition register_algorithm (name : string) (algorithm : AlgorithmBase) : M unit :=
  log INFO ("Registering new algorithm: " ++ name) ;;
  algos <- get_algorithms ;;
  set_algorithms (Dict.setitem name algorithm algos).

(** [ImageRegistrationEngine.unregister_algorithm]. *)
Definition unregister_algorithm (name : string) : M unit :=
  algos <- get_algorithms ;;
  if (Dict.len algos =? 1)%nat then
    raise (ConfigurationError "Cannot remove the last algorithm")
  else
    if Dict.contains name algos then
      log INFO ("Unregistering algorithm: " ++ name) ;;
      match Dict.delitem name algos with
      | Some algos' => set_algorithms algos'
      | None => raise (KeyError name)
      end
    else ret tt.

End Model.

Arguments RegistrationResult : clear implicits.
Arguments AlgorithmBase : clear implicits.
Arguments RegistrationOutput : clear implicits.
Arguments ImageRegistrationEngine : clear implicits.
Arguments World : clear implicits.
Arguments LoopExit : clear implicits.

(* ================================================================= *)
(** ** Properties of the engine *)

Section Properties.

Context {Image Homography Metadata : Type}.

Open Scope list_scope.

Implicit Types (w : World Image Homography Metadata).
Implicit Types (algo : AlgorithmBase Image Homography Metadata).
Implicit Types (items pre post : list (string * AlgorithmBase Image Homography Metadata)).
Implicit Types (r best : RegistrationResult Homography Metadata).
Implicit Types (br : option (RegistrationResult Homography Metadata)).
Implicit Types (ba : option string) (att : list string).
Implicit Types (src ref : Image) (cfg : EngineConfig).

(** *** Vocabulary of the statements *)

(** What the loop gets out of one [align] call: a fault and [None] are both
    an empty outcome. *)
Definition outcome algo src ref : option (RegistrationResult Homography Metadata) :=
  match align algo src ref with
  | Ok (Some r) => Some r
  | _ => None
  end.

(** The entry produces nothing that meets the thresholds. *)
Definition rejected cfg src ref (item : string * AlgorithmBase Image Homography Metadata) : Prop :=
  forall r, outcome (snd item) src ref = Some r -> meets_thresholds cfg r = false.

(** Every result the entries produce went through the constructor. *)
Definition valid_outcomes src ref items : Prop :=
  forall name algo r,
    In (name, algo) items -> outcome algo src ref = Some r -> valid_result r.

Definition all_empty src ref items : Prop :=
  forall name algo, In (name, algo) items -> outcome algo src ref = None.

(** Every result of [items] scores strictly less than [best]. *)
Definition all_below src ref items best : Prop :=
  forall name algo r,
    In (name, algo) items -> outcome algo src ref = Some r ->
    (score r <? score best)%float = true.

(** No result of [items] scores more than [best]. *)
Definition none_above src ref items best : Prop :=
  forall name algo r,
    In (name, algo) items -> outcome algo src ref = Some r ->
    (score r <=? score best)%float = true.

(** The locals [best_result] and [best_algorithm] after the entries
    [items], none of which ended the loop. *)
Fixpoint best_after src ref items br ba
  : option (RegistrationResult Homography Metadata) * option string :=
  match items with
  | [] => (br, ba)
  | (name, algo) :: rest =>
      match outcome algo src ref with
      | Some r =>
          best_after src ref rest (fst (track_best br ba name r))
                     (snd (track_best br ba name r))
      | None => best_after src ref rest br ba
      end
  end.

(** [best_result] and [best_algorithm] describe the entries [items] seen so
    far: nothing yet, or the first entry of maximal score and its name. *)
Inductive Tracked src ref items
  : option (RegistrationResult Homography Metadata) -> option string -> Prop :=
| Tracked_nothing :
    all_empty src ref items -> Tracked src ref items None None
| Tracked_first_max pre name algo post best :
    items = pre ++ (name, algo) :: post ->
    outcome algo src ref = Some best ->
    all_below src ref pre best ->
    none_above src ref post best ->
    Tracked src ref items (Some best) (Some name).

(** *** One iteration of the loop *)

Lemma align_calls_app (evs1 evs2 : list Event) :
  align_calls (evs1 ++ evs2) = align_calls evs1 ++ align_calls evs2.
Proof.
  induction evs1 as [|[lvl msg|name] evs1 IH]; cbn; [reflexivity | exact IH |].
  now rewrite IH.
Qed.

Ltac run_monad :=
  unfold bind, try_except, call_align, _is_acceptable, get_config,
    get_algorithms, log, emit, ret, raise; cbn.

Ltac solve_calls :=
  cbn; repeat rewrite align_calls_app; cbn;
  repeat rewrite <- app_assoc; cbn; repeat rewrite app_nil_r; reflexivity.

Lemma loop_step_empty src ref name algo rest br ba att w :
  outcome algo src ref = None ->
  exists w',
    engine w' = engine w /\
    align_calls (events w') = align_calls (events w) ++ [name] /\
    register_loop src ref ((name, algo) :: rest) br ba att w
    = register_loop src ref rest br ba (att ++ [name]) w'.
Proof.
  unfold outcome. intros H. cbn [register_loop]. run_monad.
  destruct (align algo src ref) as [[r|]|e]; [discriminate | |]; cbn;
    (eexists; split; [|split; [|reflexivity]]; [reflexivity | solve_calls]).
Qed.

Lemma loop_step_reject src ref name algo rest br ba att w r :
  align algo src ref = Ok (Some r) ->
  meets_thresholds (config (engine w)) r = false ->
  exists w',
    engine w' = engine w /\
    align_calls (events w') = align_calls (events w) ++ [name] /\
    register_loop src ref ((name, algo) :: rest) br ba att w
    = register_loop src ref rest (fst (track_best br ba name r))
                    (snd (track_best br ba name r)) (att ++ [name]) w'.
Proof.
  intros Ha Hm. cbn [register_loop]. run_monad. rewrite Ha; cbn.
  destruct (track_best br ba name r) as [br' ba']; cbn. rewrite Hm.
  eexists; split; [|split; [|reflexivity]]; [reflexivity | solve_calls].
Qed.

Lemma loop_step_accept src ref name algo rest br ba att w r :
  align algo src ref = Ok (Some r) ->
  meets_thresholds (config (engine w)) r = true ->
  exists w',
    engine w' = engine w /\
    align_calls (events w') = align_calls (events w) ++ [name] /\
    register_loop src ref ((name, algo) :: rest) br ba att w
    = (Ok (Returned (mkRegistrationOutput name "accepted" r (att ++ [name]))), w').
Proof.
  intros Ha Hm. cbn [register_loop]. run_monad. rewrite Ha; cbn.
  destruct (track_best br ba name r) as [br' ba']; cbn. rewrite Hm.
  eexists; split; [|split; [|reflexivity]]; [reflexivity | solve_calls].
Qed.

(** *** The loop over entries that do not end it *)

Lemma loop_skip_rejected src ref pre : forall rest br ba att w,
  Forall (rejected (config (engine w)) src ref) pre ->
  exists w',
    engine w' = engine w /\
    align_calls (events w') = align_calls (events w) ++ map fst pre /\
    register_loop src ref (pre ++ rest) br ba att w
    = register_loop src ref rest (fst (best_after src ref pre br ba))
                    (snd (best_after src ref pre br ba)) (att ++ map fst pre) w'.
Proof.
  induction pre as [|[name algo] pre IH]; intros rest br ba att w Hrej.
  - exists w. cbn. rewrite !app_nil_r. auto.
  - inversion Hrej as [|? ? Hhere Hpre]; subst.
    assert (Hstep : exists w1 br1 ba1,
               engine w1 = engine w /\
               align_calls (events w1) = align_calls (events w) ++ [name] /\
               best_after src ref ((name, algo) :: pre) br ba
               = best_after src ref pre br1 ba1 /\
               register_loop src ref (((name, algo) :: pre) ++ rest) br ba att w
               = register_loop src ref (pre ++ rest) br1 ba1 (att ++ [name]) w1).
    { cbn [best_after app]. destruct (outcome algo src ref) as [r|] eqn:Ho.
      - assert (Ha : align algo src ref = Ok (Some r)).
        { unfold outcome in Ho. destruct (align algo src ref) as [[r'|]|e]; congruence. }
        destruct (loop_step_reject src ref name algo (pre ++ rest) br ba att w r Ha
                    (Hhere r Ho)) as (w1 & He & Hc & Hl).
        exists w1, (fst (track_best br ba name r)), (snd (track_best br ba name r)).
        auto.
      - destruct (loop_step_empty src ref name algo (pre ++ rest) br ba att w Ho)
          as (w1 & He & Hc & Hl).
        exists w1, br, ba. auto. }
    destruct Hstep as (w1 & br1 & ba1 & He1 & Hc1 & Hb1 & Hl1).
    rewrite <- He1 in Hpre.
    destruct (IH rest br1 ba1 (att ++ [name]) w1 Hpre) as (w2 & He2 & Hc2 & Hl2).
    exists w2. rewrite Hl1, Hl2, Hb1, He2, He1, Hc2, Hc1. cbn [map fst].
    rewrite <- !app_assoc. cbn. auto.
Qed.

(** Without an acceptable result the loop runs to the end of the registry. *)
Lemma loop_all_rejected src ref items br ba att w :
  Forall (rejected (config (engine w)) src ref) items ->
  exists w',
    engine w' = engine w /\
    align_calls (events w') = align_calls (events w) ++ map fst items /\
    register_loop src ref items br ba att w
    = (Ok (Exhausted (fst (best_after src ref items br ba))
                     (snd (best_after src ref items br ba))
                     (att ++ map fst items)), w').
Proof.
  intros Hrej.
  destruct (loop_skip_rejected src ref items [] br ba att w Hrej)
    as (w' & He & Hc & Hl).
  exists w'. rewrite app_nil_r in Hl. rewrite Hl. cbn. auto.
Qed.

(** The first acceptable result ends the loop. *)
Lemma loop_first_accepted src ref pre name algo post r br ba att w :
  Forall (rejected (config (engine w)) src ref) pre ->
  align algo src ref = Ok (Some r) ->
  meets_thresholds (config (engine w)) r = true ->
  exists w',
    engine w' = engine w /\
    align_calls (events w') = align_calls (events w) ++ map fst pre ++ [name] /\
    register_loop src ref (pre ++ (name, algo) :: post) br ba att w
    = (Ok (Returned (mkRegistrationOutput name "accepted" r
                       (att ++ map fst pre ++ [name]))), w').
Proof.
  intros Hrej Ha Hm.
  destruct (loop_skip_rejected src ref pre ((name, algo) :: post) br ba att w Hrej)
    as (w1 & He1 & Hc1 & Hl1).
  rewrite <- He1 in Hm.
  destruct (loop_step_accept src ref name algo post
              (fst (best_after src ref pre br ba))
              (snd (best_after src ref pre br ba)) (att ++ map fst pre) w1 r Ha Hm)
    as (w2 & He2 & Hc2 & Hl2).
  exists w2. rewrite Hl1, Hl2, He2, He1, Hc2, Hc1, <- !app_assoc. auto.
Qed.

(** *** What [best_result] and [best_algorithm] hold *)

Lemma valid_result_score r : valid_result r -> in_unit_interval (score r) = true.
Proof.
  unfold valid_result, RegistrationResult_post_init.
  destruct (in_unit_interval (score r)); cbn; [reflexivity | discriminate].
Qed.

Lemma outcome_align algo src ref r :
  outcome algo src ref = Some r <-> align algo src ref = Ok (Some r).
Proof.
  unfold outcome. destruct (align algo src ref) as [[r'|]|e]; split; congruence.
Qed.

Lemma best_after_cons src ref name algo rest br ba :
  best_after src ref ((name, algo) :: rest) br ba
  = best_after src ref rest (fst (best_after src ref [(name, algo)] br ba))
               (snd (best_after src ref [(name, algo)] br ba)).
Proof. cbn. destruct (outcome algo src ref); reflexivity. Qed.

Lemma tracked_step src ref items name algo br ba :
  valid_outcomes src ref (items ++ [(name, algo)]) ->
  Tracked src ref items br ba ->
  Tracked src ref (items ++ [(name, algo)])
          (fst (best_after src ref [(name, algo)] br ba))
          (snd (best_after src ref [(name, algo)] br ba)).
Proof.
  intros Hvalid Htr. cbn. destruct (outcome algo src ref) as [r|] eqn:Ho; cbn.
  - (* a result: it replaces the best one only when it scores more *)
    assert (Hr : in_unit_interval (score r) = true).
    { apply valid_result_score, (Hvalid name algo r); [|exact Ho].
      apply in_or_app. right. now left. }
    destruct Htr as [Hempty | pre bname balgo post best Hsplit Hbest Hbelow Habove];
      unfold track_best; cbn.
    + apply (Tracked_first_max src ref _ items name algo [] r);
        [reflexivity | exact Ho | | intros ? ? ? []].
      intros n a r' Hin Hr'. rewrite (Hempty n a Hin) in Hr'. discriminate.
    + assert (Hb : in_unit_interval (score best) = true).
      { apply valid_result_score, (Hvalid bname balgo best); [|exact Hbest].
        subst items. apply in_or_app. left. apply in_or_app. right. now left. }
      destruct (score best <? score r)%float eqn:Hlt; cbn.
      * apply (Tracked_first_max src ref _ items name algo [] r);
          [reflexivity | exact Ho | | intros ? ? ? []].
        intros n a r' Hin Hr'. subst items.
        apply in_app_or in Hin as [Hin | [Heq | Hin]].
        -- apply (leb_ltb_trans _ (score best)); [|exact Hlt].
           apply ltb_leb, (Hbelow n a r' Hin Hr').
        -- inversion Heq; subst. rewrite Hbest in Hr'. inversion Hr'; subst.
           exact Hlt.
        -- apply (leb_ltb_trans _ (score best)); [|exact Hlt].
           apply (Habove n a r' Hin Hr').
      * apply (Tracked_first_max src ref _ pre bname balgo (post ++ [(name, algo)]) best);
          [subst items; now rewrite <- app_assoc | exact Hbest | exact Hbelow |].
        intros n a r' Hin Hr'. apply in_app_or in Hin as [Hin | [Heq | []]].
        -- apply (Habove n a r' Hin Hr').
        -- inversion Heq; subst. rewrite Ho in Hr'. inversion Hr'; subst.
           apply unit_interval_total; assumption.
  - (* nothing: the locals stay as they are *)
    destruct Htr as [Hempty | pre bname balgo post best Hsplit Hbest Hbelow Habove].
    + apply Tracked_nothing. intros n a Hin.
      apply in_app_or in Hin as [Hin | [Heq | []]]; [apply (Hempty n a Hin)|].
      inversion Heq; subst. exact Ho.
    + apply (Tracked_first_max src ref _ pre bname balgo (post ++ [(name, algo)]) best);
        [subst items; now rewrite <- app_assoc | exact Hbest | exact Hbelow |].
      intros n a r' Hin Hr'. apply in_app_or in Hin as [Hin | [Heq | []]].
      * apply (Habove n a r' Hin Hr').
      * inversion Heq; subst. rewrite Ho in Hr'. discriminate.
Qed.

Lemma tracked_best_after src ref items : forall seen br ba,
  valid_outcomes src ref (seen ++ items) ->
  Tracked src ref seen br ba ->
  Tracked src ref (seen ++ items)
          (fst (best_after src ref items br ba))
          (snd (best_after src ref items br ba)).
Proof.
  induction items as [|[name algo] items IH]; intros seen br ba Hvalid Htr.
  - cbn. now rewrite app_nil_r.
  - rewrite best_after_cons.
    replace (seen ++ (name, algo) :: items) with ((seen ++ [(name, algo)]) ++ items)
      in * by now rewrite <- app_assoc.
    apply IH; [exact Hvalid|]. apply tracked_step; [|exact Htr].
    intros n a r Hin. apply (Hvalid n a r). apply in_or_app. now left.
Qed.

(** After a whole registry of valid results, the locals hold the first
    result of maximal score and the name of its entry. *)
Lemma tracked_registry src ref items :
  valid_outcomes src ref items ->
  Tracked src ref items
          (fst (best_after src ref items None None))
          (snd (best_after src ref items None None)).
Proof.
  intros Hvalid. apply (tracked_best_after src ref items [] None None Hvalid).
  apply Tracked_nothing. intros ? ? [].
Qed.

(** [best_result] and [best_algorithm] are set together, valid results or
    not, so the [assert] of [register] holds. *)
Lemma best_after_paired src ref items : forall br ba,
  (br = None <-> ba = None) ->
  (fst (best_after src ref items br ba) = None
   <-> snd (best_after src ref items br ba) = None).
Proof.
  induction items as [|[name algo] items IH]; intros br ba Hpair; cbn; [exact Hpair|].
  destruct (outcome algo src ref) as [r|]; [|apply IH, Hpair].
  apply IH. unfold track_best.
  destruct br as [b|]; [destruct (score b <? score r)%float|]; cbn;
    try exact Hpair; split; discriminate.
Qed.

Lemma best_after_all_empty src ref items br ba :
  all_empty src ref items -> best_after src ref items br ba = (br, ba).
Proof.
  induction items as [|[name algo] items IH]; intros Hempty; cbn; [reflexivity|].
  rewrite (Hempty name algo (or_introl eq_refl)).
  apply IH. intros n a Hin. apply (Hempty n a). now right.
Qed.

(** *** The loop over any registry *)

(** The loop never raises and never touches the engine object.  It ends
    either at an accepted result, having entered [align] for the first [k]
    entries only, or after all entries, none of which was acceptable. *)
Lemma loop_total src ref items : forall br ba att w,
  exists w' k,
    engine w' = engine w /\
    align_calls (events w') = align_calls (events w) ++ firstn k (map fst items) /\
    (items <> [] -> (1 <= k)%nat) /\
    ((exists name r,
         register_loop src ref items br ba att w
         = (Ok (Returned (mkRegistrationOutput name "accepted" r
                            (att ++ firstn k (map fst items)))), w'))
     \/
     (k = List.length items /\
      Forall (rejected (config (engine w)) src ref) items /\
      register_loop src ref items br ba att w
      = (Ok (Exhausted (fst (best_after src ref items br ba))
                       (snd (best_after src ref items br ba))
                       (att ++ map fst items)), w'))).
Proof.
  induction items as [|[name algo] items IH]; intros br ba att w.
  - exists w, O. cbn. rewrite !app_nil_r.
    repeat split; [congruence|]. right. auto.
  - assert (Hnext : forall w1 br1 ba1,
               engine w1 = engine w ->
               align_calls (events w1) = align_calls (events w) ++ [name] ->
               best_after src ref ((name, algo) :: items) br ba
               = best_after src ref items br1 ba1 ->
               rejected (config (engine w)) src ref (name, algo) ->
               register_loop src ref ((name, algo) :: items) br ba att w
               = register_loop src ref items br1 ba1 (att ++ [name]) w1 ->
               exists w' k,
                 engine w' = engine w /\
                 align_calls (events w')
                 = align_calls (events w) ++ firstn k (map fst ((name, algo) :: items)) /\
                 (((name, algo) :: items) <> [] -> (1 <= k)%nat) /\
                 ((exists name' r,
                      register_loop src ref ((name, algo) :: items) br ba att w
                      = (Ok (Returned (mkRegistrationOutput name' "accepted" r
                               (att ++ firstn k (map fst ((name, algo) :: items))))), w'))
                  \/
                  (k = List.length ((name, algo) :: items) /\
                   Forall (rejected (config (engine w)) src ref) ((name, algo) :: items) /\
                   register_loop src ref ((name, algo) :: items) br ba att w
                   = (Ok (Exhausted
                            (fst (best_after src ref ((name, algo) :: items) br ba))
                            (snd (best_after src ref ((name, algo) :: items) br ba))
                            (att ++ map fst ((name, algo) :: items))), w')))).
    { intros w1 br1 ba1 He1 Hc1 Hb1 Hrej1 Hl1.
      destruct (IH br1 ba1 (att ++ [name]) w1)
        as (w2 & k & He2 & Hc2 & _ & [(name' & r & Hl2) | (Hk & Hrej & Hl2)]).
      - exists w2, (S k). rewrite He2, He1, Hc2, Hc1, Hl1, Hl2, <- !app_assoc. cbn.
        repeat split; [lia|]. left. now exists name', r.
      - assert (Hall : firstn k (map fst items) = map fst items).
        { apply firstn_all2. rewrite length_map. lia. }
        rewrite Hall in Hc2. rewrite He1 in Hrej.
        exists w2, (S k). rewrite He2, He1, Hc2, Hc1, Hl1, Hl2, Hb1, <- !app_assoc.
        cbn [firstn map fst app]. rewrite Hall.
        repeat split; [lia|]. right. subst k. cbn [List.length]. auto. }
    destruct (outcome algo src ref) as [r|] eqn:Ho.
    + destruct (meets_thresholds (config (engine w)) r) eqn:Hm.
      * apply outcome_align in Ho.
        destruct (loop_step_accept src ref name algo items br ba att w r Ho Hm)
          as (w1 & He & Hc & Hl).
        exists w1, 1%nat. cbn. repeat split; auto. left. now exists name, r.
      * assert (Ha := proj1 (outcome_align _ _ _ _) Ho).
        destruct (loop_step_reject src ref name algo items br ba att w r Ha Hm)
          as (w1 & He & Hc & Hl).
        apply (Hnext w1 (fst (track_best br ba name r)) (snd (track_best br ba name r))
                     He Hc); [cbn; now rewrite Ho | | exact Hl].
        intros r' Hr'. cbn in Hr'. congruence.
    + destruct (loop_step_empty src ref name algo items br ba att w Ho)
        as (w1 & He & Hc & Hl).
      apply (Hnext w1 br ba He Hc); [cbn; now rewrite Ho | | exact Hl].
      intros r' Hr'. cbn in Hr'. congruence.
Qed.

(** Two registries whose entries have the same names and give the same
    outcomes are indistinguishable to the loop, whatever was logged
    before. *)
Definition same_outcome src ref
    (item1 item2 : string * AlgorithmBase Image Homography Metadata) : Prop :=
  fst item1 = fst item2 /\ outcome (snd item1) src ref = outcome (snd item2) src ref.

Lemma loop_fst_ext src ref items1 : forall items2 br ba att w1 w2,
  Forall2 (same_outcome src ref) items1 items2 ->
  config (engine w1) = config (engine w2) ->
  fst (register_loop src ref items1 br ba att w1)
  = fst (register_loop src ref items2 br ba att w2).
Proof.
  induction items1 as [|[name algo1] items1 IH];
    intros items2 br ba att w1 w2 Hsame Hcfg;
    inversion Hsame as [|? [name2 algo2] ? ? [Hname Hout] Hrest]; subst;
    [reflexivity|].
  cbn in Hname, Hout. subst name2.
  destruct (outcome algo1 src ref) as [r|] eqn:Ho1; symmetry in Hout.
  - assert (Ha1 := proj1 (outcome_align _ _ _ _) Ho1).
    assert (Ha2 := proj1 (outcome_align _ _ _ _) Hout).
    destruct (meets_thresholds (config (engine w1)) r) eqn:Hm.
    + destruct (loop_step_accept src ref name algo1 items1 br ba att w1 r Ha1 Hm)
        as (w1' & _ & _ & ->).
      rewrite Hcfg in Hm.
      destruct (loop_step_accept src ref name algo2 l' br ba att w2 r Ha2 Hm)
        as (w2' & _ & _ & ->).
      reflexivity.
    + destruct (loop_step_reject src ref name algo1 items1 br ba att w1 r Ha1 Hm)
        as (w1' & He1 & _ & ->).
      rewrite Hcfg in Hm.
      destruct (loop_step_reject src ref name algo2 l' br ba att w2 r Ha2 Hm)
        as (w2' & He2 & _ & ->).
      apply IH; [exact Hrest | now rewrite He1, He2].
  - destruct (loop_step_empty src ref name algo1 items1 br ba att w1 Ho1)
      as (w1' & He1 & _ & ->).
    destruct (loop_step_empty src ref name algo2 l' br ba att w2 Hout)
      as (w2' & He2 & _ & ->).
    apply IH; [exact Hrest | now rewrite He1, He2].
Qed.

(** *** From the loop to [register] *)

(** The state in which the loop starts: the opening record is logged. *)
Definition started w : World Image Homography Metadata :=
  mkWorld (engine w)
          (events w ++
           [LogRecord INFO ("Starting registration with "
                            ++ str_of_Z (Z.of_nat (Dict.len (algorithms (engine w))))
                            ++ " algorithms")%string]).

(** What [register] makes of the way the loop ended. *)
Definition concluded cfg (exit : LoopExit Homography Metadata)
  : Result (RegistrationOutput Homography Metadata) :=
  match exit with
  | Returned out => Ok out
  | Exhausted None _ att => Raise (RegistrationError (no_homography_message att))
  | Exhausted (Some best) ba att =>
      if negb (enable_fallback cfg)
      then Raise (RegistrationError (below_thresholds_message cfg best ba))
      else match ba with
           | None => Raise AssertionError
           | Some name =>
               Ok (mkRegistrationOutput name "fallback_low_confidence" best att)
           end
  end.

Lemma register_of_loop src ref w exit w1 :
  register_loop src ref (algorithms (engine w)) None None [] (started w) = (Ok exit, w1) ->
  exists w2,
    engine w2 = engine w1 /\
    align_calls (events w2) = align_calls (events w1) /\
    register src ref w = (concluded (config (engine w1)) exit, w2).
Proof.
  intros Hloop. unfold register. run_monad. unfold started in Hloop. cbn in Hloop.
  rewrite Hloop. destruct exit as [out | [best|] ba att]; cbn.
  - now exists w1.
  - destruct (enable_fallback (config (engine w1))); cbn.
    + destruct ba as [name|]; eexists; (split; [|split; [|reflexivity]]);
        try reflexivity; solve_calls.
    + eexists; (split; [|split; [|reflexivity]]); [reflexivity | solve_calls].
  - eexists; (split; [|split; [|reflexivity]]); [reflexivity | solve_calls].
Qed.

Lemma started_config w : config (engine (started w)) = config (engine w).
Proof. reflexivity. Qed.

Lemma started_calls w : align_calls (events (started w)) = align_calls (events w).
Proof. unfold started. cbn. rewrite align_calls_app. cbn. apply app_nil_r. Qed.

Lemma loop_returns src ref items br ba att w :
  exists exit w',
    engine w' = engine w /\
    register_loop src ref items br ba att w = (Ok exit, w').
Proof.
  destruct (loop_total src ref items br ba att w)
    as (w' & k & He & _ & _ & [(name & r & Hl) | (_ & _ & Hl)]);
    eexists; exists w'; (split; [exact He | exact Hl]).
Qed.

(** No acceptable result: [register] concludes from the locals left by the
    whole registry. *)
Lemma register_when_exhausted src ref w :
  Forall (rejected (config (engine w)) src ref) (algorithms (engine w)) ->
  exists w',
    engine w' = engine w /\
    align_calls (events w') = align_calls (events w) ++ map fst (algorithms (engine w)) /\
    register src ref w
    = (concluded (config (engine w))
         (Exhausted (fst (best_after src ref (algorithms (engine w)) None None))
                    (snd (best_after src ref (algorithms (engine w)) None None))
                    (map fst (algorithms (engine w)))), w').
Proof.
  intros Hrej.
  destruct (loop_all_rejected src ref (algorithms (engine w)) None None [] (started w) Hrej)
    as (w1 & He1 & Hc1 & Hl1).
  destruct (register_of_loop src ref w _ w1 Hl1) as (w2 & He2 & Hc2 & Hr).
  exists w2. rewrite Hr, He2, Hc2, Hc1, He1, started_calls. auto.
Qed.

(** A first acceptable result: [register] returns it. *)
Lemma register_when_accepted src ref w pre name algo post r :
  algorithms (engine w) = pre ++ (name, algo) :: post ->
  Forall (rejected (config (engine w)) src ref) pre ->
  align algo src ref = Ok (Some r) ->
  meets_thresholds (config (engine w)) r = true ->
  exists w',
    engine w' = engine w /\
    align_calls (events w') = align_calls (events w) ++ map fst pre ++ [name] /\
    register src ref w
    = (Ok (mkRegistrationOutput name "accepted" r (map fst pre ++ [name])), w').
Proof.
  intros Hsplit Hrej Ha Hm.
  destruct (loop_first_accepted src ref pre name algo post r None None []
              (started w) Hrej Ha Hm) as (w1 & He1 & Hc1 & Hl1).
  rewrite <- Hsplit in Hl1.
  destruct (register_of_loop src ref w _ w1 Hl1) as (w2 & He2 & Hc2 & Hr).
  exists w2. rewrite Hr, He2, Hc2, Hc1, He1, started_calls. auto.
Qed.

(** Whatever the registry holds, [register] leaves the engine object as it
    was, enters [align] for a prefix of the registry and lists exactly that
    prefix in the output; what it raises is a [RegistrationError] of its
    own. *)
Lemma register_total src ref w :
  exists k,
    engine (snd (register src ref w)) = engine w /\
    align_calls (events (snd (register src ref w)))
    = align_calls (events w) ++ firstn k (map fst (algorithms (engine w))) /\
    (algorithms (engine w) <> [] -> (1 <= k)%nat) /\
    match fst (register src ref w) with
    | Ok out => attempts out = firstn k (map fst (algorithms (engine w)))
    | Raise e => exists msg, e = RegistrationError msg
    end.
Proof.
  destruct (loop_total src ref (algorithms (engine w)) None None [] (started w))
    as (w1 & k & He1 & Hc1 & Hk & [(name & r & Hl) | (Hlen & _ & Hl)]);
    destruct (register_of_loop src ref w _ w1 Hl) as (w2 & He2 & Hc2 & ->);
    exists k; cbn [fst snd]; rewrite He2, Hc2, Hc1, He1, started_calls;
    (split; [reflexivity|]); (split; [reflexivity|]); (split; [exact Hk|]).
  - reflexivity.
  - assert (Hall : firstn k (map fst (algorithms (engine w)))
                   = map fst (algorithms (engine w))).
    { apply firstn_all2. rewrite length_map. lia. }
    rewrite Hall.
    assert (Hpair := best_after_paired src ref (algorithms (engine w)) None None
                       (conj (fun _ => eq_refl) (fun _ => eq_refl))).
    destruct (best_after src ref (algorithms (engine w)) None None) as [[b|] oa];
      cbn in *; [|eauto].
    destruct (enable_fallback (config (engine w))); cbn; [|eauto].
    destruct oa as [n|]; cbn; [reflexivity|].
    destruct Hpair as [_ Hnone]. discriminate (Hnone eq_refl).
Qed.

(** The verdict of [register] is a function of the thresholds, the names in
    the registry and the outcomes of its algorithms. *)
Lemma register_fst_ext src ref w1 w2 :
  config (engine w1) = config (engine w2) ->
  Forall2 (same_outcome src ref) (algorithms (engine w1)) (algorithms (engine w2)) ->
  fst (register src ref w1) = fst (register src ref w2).
Proof.
  intros Hcfg Hsame.
  destruct (loop_returns src ref (algorithms (engine w1)) None None [] (started w1))
    as (exit1 & w1' & He1 & Hl1).
  destruct (loop_returns src ref (algorithms (engine w2)) None None [] (started w2))
    as (exit2 & w2' & He2 & Hl2).
  assert (Hexit : exit1 = exit2).
  { assert (H := loop_fst_ext src ref _ _ None None [] (started w1) (started w2)
                   Hsame Hcfg).
    rewrite Hl1, Hl2 in H. cbn in H. congruence. }
  subst exit2.
  destruct (register_of_loop src ref w1 _ w1' Hl1) as (? & _ & _ & ->).
  destruct (register_of_loop src ref w2 _ w2' Hl2) as (? & _ & _ & ->).
  cbn. now rewrite He1, He2, !started_config, Hcfg.
Qed.

Lemma same_outcome_refl src ref items : Forall2 (same_outcome src ref) items items.
Proof. induction items; constructor; [split; reflexivity | assumption]. Qed.

(** *** The acceptance thresholds *)

(** [x == y] on both fields gives [x >= y] on both: the thresholds are
    inclusive. *)
Lemma meets_thresholds_at_boundary cfg r :
  (score r =? min_score cfg)%float = true ->
  (inlier_ratio r =? min_inlier_ratio cfg)%float = true ->
  meets_thresholds cfg r = true.
Proof.
  intros Hs Hi. unfold meets_thresholds.
  now rewrite (eqb_geb _ _ Hs), (eqb_geb _ _ Hi).
Qed.

(** C2 -- Early exit.  Let the registry be [pre ++ (name, algo) :: post],
    where no entry of [pre] yields a result meeting the thresholds, and let
    [algo] return a result [r] with [score >= min_score] and
    [inlier_ratio >= min_inlier_ratio], or with both fields exactly equal to
    their thresholds.  Then [register] returns status ["accepted"] with
    [algorithm = name], [result = r] and [attempts] the names of [pre]
    followed by [name]; these are also exactly the entries whose [align] was
    entered, so no entry of [post] is invoked. *)
Theorem register_accepts_first_acceptable src ref w pre name algo post r :
  algorithms (engine w) = pre ++ (name, algo) :: post ->
  Forall (rejected (config (engine w)) src ref) pre ->
  align algo src ref = Ok (Some r) ->
  ((min_score (config (engine w)) <=? score r)%float = true /\
   (min_inlier_ratio (config (engine w)) <=? inlier_ratio r)%float = true)
  \/ ((score r =? min_score (config (engine w)))%float = true /\
      (inlier_ratio r =? min_inlier_ratio (config (engine w)))%float = true) ->
  fst (register src ref w)
  = Ok (mkRegistrationOutput name "accepted" r (map fst pre ++ [name])) /\
  align_calls (events (snd (register src ref w)))
  = align_calls (events w) ++ map fst pre ++ [name].
Proof.
  intros Hsplit Hrej Ha Hmeets.
  assert (Hm : meets_thresholds (config (engine w)) r = true).
  { destruct Hmeets as [[Hs Hi] | [Hs Hi]].
    - unfold meets_thresholds. now rewrite Hs, Hi.
    - now apply meets_thresholds_at_boundary. }
  destruct (register_when_accepted src ref w pre name algo post r Hsplit Hrej Ha Hm)
    as (w' & _ & Hc & ->).
  split; [reflexivity | exact Hc].
Qed.

(** *** No acceptable result *)

(** With some result among valid ones, the locals after the whole registry
    single out an entry: the first of maximal score. *)
Lemma first_best_exists src ref items :
  valid_outcomes src ref items ->
  (exists name algo r, In (name, algo) items /\ outcome algo src ref = Some r) ->
  exists pre name algo post best,
    items = pre ++ (name, algo) :: post /\
    align algo src ref = Ok (Some best) /\
    all_below src ref pre best /\
    none_above src ref post best /\
    best_after src ref items None None = (Some best, Some name).
Proof.
  intros Hvalid (n & a & r & Hin & Hr).
  assert (Htr := tracked_registry src ref items Hvalid).
  destruct (best_after src ref items None None) as [obr oba]; cbn in Htr.
  inversion Htr as [Hempty | pre name algo post best Hsplit Hbest Hbelow Habove]; subst.
  - rewrite (Hempty n a Hin) in Hr. discriminate.
  - exists pre, name, algo, post, best.
    apply outcome_align in Hbest. auto.
Qed.

(** C1 -- Fallback.  If fallback is enabled, no entry of the registry yields
    a result meeting the thresholds, some entry yields a result, and the
    results are valid [RegistrationResult]s, then [register] returns status
    ["fallback_low_confidence"]; its [result] is the result [best] of an
    entry [(name, algo)] of the registry and [algorithm = name]; every result
    of an earlier entry scores strictly less than [best] and no result of a
    later entry scores more (so [best] is the first of maximal score);
    [attempts] lists all names of the registry in order, which are also the
    entries whose [align] was entered. *)
Theorem register_falls_back_to_first_best src ref w :
  enable_fallback (config (engine w)) = true ->
  Forall (rejected (config (engine w)) src ref) (algorithms (engine w)) ->
  (exists name algo r,
      In (name, algo) (algorithms (engine w)) /\ outcome algo src ref = Some r) ->
  valid_outcomes src ref (algorithms (engine w)) ->
  exists pre name algo post best,
    algorithms (engine w) = pre ++ (name, algo) :: post /\
    align algo src ref = Ok (Some best) /\
    all_below src ref pre best /\
    none_above src ref post best /\
    fst (register src ref w)
    = Ok (mkRegistrationOutput name "fallback_low_confidence" best
                               (map fst (algorithms (engine w)))) /\
    align_calls (events (snd (register src ref w)))
    = align_calls (events w) ++ map fst (algorithms (engine w)).
Proof.
  intros Hfb Hrej Hsome Hvalid.
  destruct (first_best_exists src ref _ Hvalid Hsome)
    as (pre & name & algo & post & best & Hsplit & Ha & Hbelow & Habove & Hbest).
  destruct (register_when_exhausted src ref w Hrej) as (w' & _ & Hc & ->).
  exists pre, name, algo, post, best. rewrite Hbest. cbn. rewrite Hfb. cbn.
  repeat (split; [assumption|]). split; [reflexivity | exact Hc].
Qed.

(** C3, as the code has it -- Fallback disabled.  If fallback is disabled,
    no entry of the registry yields a result meeting the thresholds, some
    entry yields a result, and the results are valid, then [register] raises
    a [RegistrationError] whose message gives the two configured thresholds,
    the score of the best result (the first of maximal score) with three
    decimals, and the name of the entry that produced it.  The other
    attempted names are not part of that message. *)
Theorem register_fallback_disabled_raises src ref w :
  enable_fallback (config (engine w)) = false ->
  Forall (rejected (config (engine w)) src ref) (algorithms (engine w)) ->
  (exists name algo r,
      In (name, algo) (algorithms (engine w)) /\ outcome algo src ref = Some r) ->
  valid_outcomes src ref (algorithms (engine w)) ->
  exists pre name algo post best,
    algorithms (engine w) = pre ++ (name, algo) :: post /\
    align algo src ref = Ok (Some best) /\
    all_below src ref pre best /\
    none_above src ref post best /\
    fst (register src ref w)
    = Raise (RegistrationError
               ("No alignment met quality thresholds (min_score="
                ++ float_repr (min_score (config (engine w)))
                ++ ", min_inlier_ratio="
                ++ float_repr (min_inlier_ratio (config (engine w)))
                ++ "). Best score: " ++ format_3f (score best)
                ++ " from " ++ name)%string).
Proof.
  intros Hfb Hrej Hsome Hvalid.
  destruct (first_best_exists src ref _ Hvalid Hsome)
    as (pre & name & algo & post & best & Hsplit & Ha & Hbelow & Habove & Hbest).
  destruct (register_when_exhausted src ref w Hrej) as (w' & _ & Hc & ->).
  exists pre, name, algo, post, best. rewrite Hbest. cbn. rewrite Hfb. cbn.
  repeat (split; [assumption|]). reflexivity.
Qed.

(** C6 -- Nothing usable.  If every entry of the registry raises or returns
    [None], [register] raises a [RegistrationError] whose message ends with
    the names of all entries, joined by [", "]; each of these names occurs in
    the message, and [align] was entered for each entry. *)
Theorem register_all_empty_raises src ref w :
  all_empty src ref (algorithms (engine w)) ->
  fst (register src ref w)
  = Raise (RegistrationError
             ("No alignment produced a valid homography. Attempted: "
              ++ join ", " (map fst (algorithms (engine w))))%string) /\
  align_calls (events (snd (register src ref w)))
  = align_calls (events w) ++ map fst (algorithms (engine w)) /\
  forall name,
    In name (map fst (algorithms (engine w))) ->
    PyStr.contains name
      ("No alignment produced a valid homography. Attempted: "
       ++ join ", " (map fst (algorithms (engine w))))%string = true.
Proof.
  intros Hempty.
  assert (Hrej : Forall (rejected (config (engine w)) src ref) (algorithms (engine w))).
  { apply Forall_forall. intros [n a] Hin r Hr. cbn in Hr.
    rewrite (Hempty n a Hin) in Hr. discriminate. }
  destruct (register_when_exhausted src ref w Hrej) as (w' & _ & Hc & ->).
  rewrite (best_after_all_empty src ref _ None None Hempty).
  cbn [fst snd concluded]. unfold no_homography_message.
  split; [reflexivity|]. split; [exact Hc|].
  intros name Hin. apply contains_skip, contains_join, Hin.
Qed.



(** *** Faulting algorithms *)




(** *** The engine between calls *)

(** C9 -- [register] is stateless.  Whatever the call does (returns an
    accepted result, returns a fallback result, or raises), the engine
    object after it, registry with its order and config, is the one before
    it; and a following [register] call ends as it would have ended without
    the first. *)
Theorem register_leaves_engine_unchanged src ref w :
  engine (snd (register src ref w)) = engine w /\
  forall src' ref',
    fst (register src' ref' (snd (register src ref w)))
    = fst (register src' ref' w).
Proof.
  destruct (register_total src ref w) as (k & He & _).
  split; [exact He|]. intros src' ref'.
  apply register_fst_ext; rewrite He; [reflexivity | apply same_outcome_refl].
Qed.

(** *** Construction *)

Lemma post_init_result_raises r :
  in_unit_interval (score r) = false \/
  in_unit_interval (inlier_ratio r) = false \/
  (matches_count r < 0)%Z ->
  exists msg, RegistrationResult_post_init r = Raise (ValueError msg).
Proof.
  unfold RegistrationResult_post_init. intros H.
  destruct (in_unit_interval (score r)); cbn; [|eauto].
  destruct (in_unit_interval (inlier_ratio r)); cbn; [|eauto].
  destruct (Z.ltb_spec (matches_count r) 0); [eauto|].
  destruct H as [H | [H | H]]; [discriminate | discriminate | lia].
Qed.

(** C8 -- Validation of [RegistrationResult].  Construction raises (a
    [ValueError]) when [score] or [inlier_ratio] is not within
    [0.0 <= x <= 1.0] or [matches_count] is negative; from values within
    range it returns the instance holding exactly the values given. *)
Theorem RegistrationResult_new_validates
    (s i : float) (h : Homography) (mc : Z) (md : option Metadata) :
  (in_unit_interval s = false \/ in_unit_interval i = false \/ (mc < 0)%Z ->
   exists msg, RegistrationResult_new s i h mc md = Raise (ValueError msg)) /\
  (in_unit_interval s = true -> in_unit_interval i = true -> (0 <= mc)%Z ->
   RegistrationResult_new s i h mc md = Ok (mkRegistrationResult s i h mc md)).
Proof.
  unfold RegistrationResult_new. split.
  - intros H.
    destruct (post_init_result_raises (mkRegistrationResult s i h mc md) H) as (msg & ->).
    now exists msg.
  - intros Hs Hi Hmc. unfold RegistrationResult_post_init. cbn. rewrite Hs, Hi. cbn.
    destruct (Z.ltb_spec mc 0); [lia | reflexivity].
Qed.

(** C4, as the code has it -- Configuration failures.  Constructing the
    engine with an empty registry raises [ConfigurationError]; constructing
    a config with [min_score] or [min_inlier_ratio] not within
    [0.0 <= x <= 1.0] raises [ValueError]; unregistering the key of a
    registry of one entry raises [ConfigurationError] and changes nothing. *)
Theorem configuration_failures :
  (forall cfg : option EngineConfig,
      ImageRegistrationEngine_init
        ([] : dict (AlgorithmBase Image Homography Metadata)) cfg
      = Raise (ConfigurationError "At least one algorithm must be provided")) /\
  (forall ms mi fb,
      in_unit_interval ms = false \/ in_unit_interval mi = false ->
      exists msg, EngineConfig_new ms mi fb = Raise (ValueError msg)) /\
  (forall w name algo,
      algorithms (engine w) = [(name, algo)] ->
      unregister_algorithm name w
      = (Raise (ConfigurationError "Cannot remove the last algorithm"), w)).
Proof.
  split; [reflexivity | split].
  - intros ms mi fb H. unfold EngineConfig_new, EngineConfig_post_init. cbn.
    destruct (in_unit_interval ms); cbn; [|eauto].
    destruct (in_unit_interval mi); cbn; [|eauto].
    destruct H; discriminate.
  - intros w name algo Hreg. unfold unregister_algorithm. run_monad.
    now rewrite Hreg.
Qed.

(** *** Mutating the registry *)

(** What [unregister_algorithm] does, case by case. *)
Lemma unregister_algorithm_single w name :
  Dict.len (algorithms (engine w)) = 1%nat ->
  unregister_algorithm name w
  = (Raise (ConfigurationError "Cannot remove the last algorithm"), w).
Proof.
  intros Hlen. unfold unregister_algorithm. run_monad. now rewrite Hlen.
Qed.

Lemma unregister_algorithm_absent w name :
  Dict.len (algorithms (engine w)) <> 1%nat ->
  Dict.contains name (algorithms (engine w)) = false ->
  unregister_algorithm name w = (Ok tt, w).
Proof.
  intros Hlen Habs. unfold unregister_algorithm. run_monad.
  apply Nat.eqb_neq in Hlen. now rewrite Hlen, Habs.
Qed.

Lemma unregister_algorithm_present w name :
  Dict.len (algorithms (engine w)) <> 1%nat ->
  Dict.contains name (algorithms (engine w)) = true ->
  exists w',
    unregister_algorithm name w = (Ok tt, w') /\
    Dict.delitem name (algorithms (engine w)) = Some (algorithms (engine w')) /\
    S (Dict.len (algorithms (engine w'))) = Dict.len (algorithms (engine w)) /\
    config (engine w') = config (engine w).
Proof.
  intros Hlen Hin. unfold unregister_algorithm. run_monad.
  apply Nat.eqb_neq in Hlen. rewrite Hlen, Hin. cbn.
  destruct (Dict.delitem_contains name (algorithms (engine w)) Hin) as (d' & -> & Hd').
  eexists. split; [reflexivity|]. cbn. auto.
Qed.

(** C10 -- [register_algorithm] keeps or appends.  If [name] is in the
    registry, say the registry is [before ++ (name, old) :: after] with
    [name] not among the keys of [before], the registry becomes
    [before ++ (name, algo) :: after]: the new algorithm at the old
    position.  If [name] is not in the registry, the registry becomes the
    old one followed by [(name, algo)].  In both cases the call returns and
    the config is untouched. *)
Theorem register_algorithm_keeps_position_or_appends w name algo :
  fst (register_algorithm name algo w) = Ok tt /\
  config (engine (snd (register_algorithm name algo w))) = config (engine w) /\
  (Dict.contains name (algorithms (engine w)) = true ->
   exists before old after,
     algorithms (engine w) = before ++ (name, old) :: after /\
     ~ In name (Dict.keys before) /\
     algorithms (engine (snd (register_algorithm name algo w)))
     = before ++ (name, algo) :: after) /\
  (Dict.contains name (algorithms (engine w)) = false ->
   algorithms (engine (snd (register_algorithm name algo w)))
   = algorithms (engine w) ++ [(name, algo)]).
Proof.
  unfold register_algorithm. run_monad.
  split; [reflexivity|]. split; [reflexivity|]. split.
  - apply Dict.setitem_present.
  - apply Dict.setitem_absent.
Qed.

(** *** The records a call leaves *)

(** The state [w] after the events [evs]. *)
Definition logged w (evs : list Event) : World Image Homography Metadata :=
  mkWorld (engine w) (events w ++ evs).

Definition attempting_record (name : string) : Event :=
  LogRecord DEBUG ("Attempting algorithm: " ++ name)%string.

Definition fault_record (name : string) (e : PyException) : Event :=
  LogRecord WARNING ("Algorithm " ++ name ++ " raised exception: " ++ exc_str e)%string.

Definition nothing_record (name : string) : Event :=
  LogRecord DEBUG ("Algorithm " ++ name ++ " returned None (no valid alignment)")%string.

Definition score_record (name : string) r : Event :=
  LogRecord DEBUG ("Algorithm " ++ name ++ ": score=" ++ format_3f (score r)
                   ++ ", inlier_ratio=" ++ format_3f (inlier_ratio r)
                   ++ ", matches=" ++ str_of_Z (matches_count r))%string.

Definition accepted_record (name : string) r : Event :=
  LogRecord INFO ("Accepted result from " ++ name ++ " (score="
                  ++ format_3f (score r) ++ ", inlier_ratio="
                  ++ format_3f (inlier_ratio r) ++ ")")%string.

Definition fallback_record cfg (name : string) best : Event :=
  LogRecord WARNING ("Using fallback result from " ++ name
                     ++ " with score=" ++ format_3f (score best)
                     ++ " (below threshold=" ++ float_repr (min_score cfg) ++ ")")%string.

Lemma logged_logged w evs1 evs2 : logged (logged w evs1) evs2 = logged w (evs1 ++ evs2).
Proof. unfold logged. cbn. now rewrite app_assoc. Qed.

(** One iteration, with what it sends to the logger. *)
Lemma loop_step_explicit src ref name algo rest br ba att w :
  register_loop src ref ((name, algo) :: rest) br ba att w
  = match align algo src ref with
    | Raise e =>
        register_loop src ref rest br ba (att ++ [name])
          (logged w [attempting_record name; AlignCall name; fault_record name e])
    | Ok None =>
        register_loop src ref rest br ba (att ++ [name])
          (logged w [attempting_record name; AlignCall name; nothing_record name])
    | Ok (Some r) =>
        if meets_thresholds (config (engine w)) r
        then (Ok (Returned (mkRegistrationOutput name "accepted" r (att ++ [name]))),
              logged w [attempting_record name; AlignCall name; score_record name r;
                        accepted_record name r])
        else register_loop src ref rest (fst (track_best br ba name r))
               (snd (track_best br ba name r)) (att ++ [name])
               (logged w [attempting_record name; AlignCall name; score_record name r])
    end.
Proof.
  unfold logged, attempting_record, fault_record, nothing_record, score_record,
    accepted_record.
  cbn [register_loop]. run_monad.
  destruct (align algo src ref) as [[r|]|e]; cbn.
  - destruct (track_best br ba name r) as [br' ba']; cbn.
    destruct (meets_thresholds (config (engine w)) r); cbn;
      repeat rewrite <- app_assoc; reflexivity.
  - repeat rewrite <- app_assoc; reflexivity.
  - repeat rewrite <- app_assoc; reflexivity.
Qed.

(** The loop only adds events; when it returns an output, the last one is
    the record of the acceptance. *)
Lemma loop_trace src ref items : forall br ba att w,
  exists evs,
    snd (register_loop src ref items br ba att w) = logged w evs /\
    forall out,
      fst (register_loop src ref items br ba att w) = Ok (Returned out) ->
      exists evs',
        evs = evs' ++ [accepted_record (algorithm out) (result out)].
Proof.
  induction items as [|[name algo] items IH]; intros br ba att w.
  - exists []. cbn. unfold logged. rewrite app_nil_r. split; [now destruct w|].
    intros out H. discriminate.
  - rewrite loop_step_explicit.
    destruct (align algo src ref) as [[r|]|e].
    + destruct (meets_thresholds (config (engine w)) r).
      * eexists. split; [reflexivity|]. intros out H. cbn in H.
        injection H as <-. cbn.
        exists [attempting_record name; AlignCall name; score_record name r].
        reflexivity.
      * match goal with
        | |- context [register_loop src ref items ?b ?a ?t ?w1] =>
            destruct (IH b a t w1) as (evs & Hs & Hout)
        end.
        rewrite Hs, logged_logged. eexists. split; [reflexivity|].
        intros out H. destruct (Hout out H) as (evs' & ->).
        eexists. rewrite app_assoc. reflexivity.
    + match goal with
      | |- context [register_loop src ref items ?b ?a ?t ?w1] =>
          destruct (IH b a t w1) as (evs & Hs & Hout)
      end.
      rewrite Hs, logged_logged. eexists. split; [reflexivity|].
      intros out H. destruct (Hout out H) as (evs' & ->).
      eexists. rewrite app_assoc. reflexivity.
    + match goal with
      | |- context [register_loop src ref items ?b ?a ?t ?w1] =>
          destruct (IH b a t w1) as (evs & Hs & Hout)
      end.
      rewrite Hs, logged_logged. eexists. split; [reflexivity|].
      intros out H. destruct (Hout out H) as (evs' & ->).
      eexists. rewrite app_assoc. reflexivity.
Qed.

(** A fault met by the loop is reported: the warning follows the call. *)
Lemma loop_trace_fault src ref pre : forall name algo post e br ba att w,
  Forall (rejected (config (engine w)) src ref) pre ->
  align algo src ref = Raise e ->
  exists before after,
    events (snd (register_loop src ref (pre ++ (name, algo) :: post) br ba att w))
    = events w ++ before ++ [AlignCall name; fault_record name e] ++ after.
Proof.
  induction pre as [|[n0 a0] pre IH]; intros name algo post e br ba att w Hrej Hraise.
  - cbn [app]. rewrite loop_step_explicit, Hraise.
    match goal with
    | |- context [register_loop src ref post ?b ?a ?t ?w1] =>
        destruct (loop_trace src ref post b a t w1) as (evs & Hs & _)
    end.
    rewrite Hs, logged_logged. cbn.
    exists [attempting_record name], evs. reflexivity.
  - inversion Hrej as [|? ? Hhere Hpre]; subst.
    cbn [app]. rewrite loop_step_explicit.
    assert (Hgo : forall b a t evs0,
               exists before after,
                 events (snd (register_loop src ref (pre ++ (name, algo) :: post)
                                b a t (logged w evs0)))
                 = events w ++ before ++ [AlignCall name; fault_record name e] ++ after).
    { intros b a t evs0.
      destruct (IH name algo post e b a t (logged w evs0) Hpre Hraise)
        as (before & after & ->).
      exists (evs0 ++ before), after. cbn. now rewrite <- !app_assoc. }
    destruct (align a0 src ref) as [[r|]|e0] eqn:Ha0; try apply Hgo.
    assert (Hm : meets_thresholds (config (engine w)) r = false).
    { apply Hhere. cbn. unfold outcome. now rewrite Ha0. }
    rewrite Hm. apply Hgo.
Qed.

(** [register], with what it sends to the logger after the loop. *)
Lemma register_explicit src ref w :
  register src ref w
  = match register_loop src ref (algorithms (engine w)) None None [] (started w) with
    | (Ok (Returned out), w1) => (Ok out, w1)
    | (Ok (Exhausted None _ att), w1) =>
        (Raise (RegistrationError (no_homography_message att)),
         logged w1 [LogRecord ERROR "No algorithm produced a valid homography"])
    | (Ok (Exhausted (Some best) ba att), w1) =>
        if negb (enable_fallback (config (engine w1))) then
          (Raise (RegistrationError
                    (below_thresholds_message (config (engine w1)) best ba)),
           logged w1 [LogRecord ERROR
                        ("Best result from " ++ str_of_optional ba
                         ++ " did not meet thresholds and fallback is disabled")%string])
        else
          (match ba with
           | None => Raise AssertionError
           | Some name =>
               Ok (mkRegistrationOutput name "fallback_low_confidence" best att)
           end,
           logged w1 [fallback_record (config (engine w1)) (str_of_optional ba) best])
    | (Raise e, w1) => (Raise e, w1)
    end.
Proof.
  unfold register, started, logged, fallback_record. run_monad.
  destruct (register_loop src ref (algorithms (engine w)) None None [] _)
    as [[[out | [best|] ba att] | e] w1]; cbn; try reflexivity.
  destruct (enable_fallback (config (engine w1))); cbn; [|reflexivity].
  destruct ba; reflexivity.
Qed.

(** *** What an output or an error of [register] says *)

(** Either some entry is the first to yield an acceptable result, or none
    does. *)
Lemma first_acceptable_or_none cfg src ref items :
  (exists pre name algo post r,
      items = pre ++ (name, algo) :: post /\
      Forall (rejected cfg src ref) pre /\
      align algo src ref = Ok (Some r) /\
      meets_thresholds cfg r = true)
  \/ Forall (rejected cfg src ref) items.
Proof.
  induction items as [|[name algo] items IH]; [right; constructor|].
  destruct (outcome algo src ref) as [r|] eqn:Ho.
  - destruct (meets_thresholds cfg r) eqn:Hm.
    + left. exists [], name, algo, items, r. cbn.
      apply outcome_align in Ho. repeat split; auto.
    + assert (Hhere : rejected cfg src ref (name, algo)).
      { intros r' Hr'. cbn in Hr'. congruence. }
      destruct IH as [(pre & n & a & post & r0 & -> & Hpre & Ha & Hm0) | Hall].
      * left. exists ((name, algo) :: pre), n, a, post, r0. cbn. repeat split; auto.
      * right. now constructor.
  - assert (Hhere : rejected cfg src ref (name, algo)).
    { intros r' Hr'. cbn in Hr'. congruence. }
    destruct IH as [(pre & n & a & post & r0 & -> & Hpre & Ha & Hm0) | Hall].
    + left. exists ((name, algo) :: pre), n, a, post, r0. cbn. repeat split; auto.
    + right. now constructor.
Qed.

(** The locals name an entry of the registry and hold what it returned,
    valid or not. *)
Lemma best_after_provenance src ref items : forall br ba best name,
  best_after src ref items br ba = (Some best, Some name) ->
  (br = Some best /\ ba = Some name)
  \/ exists algo, In (name, algo) items /\ outcome algo src ref = Some best.
Proof.
  induction items as [|[n a] items IH]; intros br ba best name Hbest; cbn in Hbest.
  - left. split; congruence.
  - destruct (outcome a src ref) as [r|] eqn:Ho.
    + destruct (IH _ _ _ _ Hbest) as [[Hb Hn] | (algo & Hin & Hout)].
      * unfold track_best in Hb, Hn.
        destruct (match br with
                  | Some b => (score b <? score r)%float
                  | None => true
                  end); cbn in Hb, Hn.
        -- right. exists a. split; [left|]; congruence.
        -- left. now split.
      * right. exists algo. split; [now right | exact Hout].
    + destruct (IH _ _ _ _ Hbest) as [Hsame | (algo & Hin & Hout)].
      * now left.
      * right. exists algo. split; [now right | exact Hout].
Qed.

Lemma best_after_keeps_some src ref items : forall br ba,
  br <> None -> fst (best_after src ref items br ba) <> None.
Proof.
  induction items as [|[n a] items IH]; intros br ba Hbr; cbn; [exact Hbr|].
  destruct (outcome a src ref) as [r|]; [|now apply IH].
  apply IH. unfold track_best.
  destruct br as [b|]; [|congruence].
  destruct (score b <? score r)%float; cbn; congruence.
Qed.

(** No result in the locals: no entry gave one. *)
Lemma best_after_none_all_empty src ref items : forall br ba,
  fst (best_after src ref items br ba) = None -> all_empty src ref items.
Proof.
  induction items as [|[n a] items IH]; intros br ba Hnone; [intros ? ? []|].
  cbn in Hnone. destruct (outcome a src ref) as [r|] eqn:Ho.
  - exfalso. revert Hnone. apply best_after_keeps_some. unfold track_best.
    destruct br as [b|]; [destruct (score b <? score r)%float|]; cbn; congruence.
  - intros name algo [Heq | Hin].
    + inversion Heq; subst. exact Ho.
    + apply (IH br ba Hnone name algo Hin).
Qed.

(** X1 -- An output of [register] is never made up.  Its [result] is what
    the [align] of the registry entry named [algorithm] returned for these
    images.  Its status is ["accepted"] and the result meets both
    thresholds, or it is ["fallback_low_confidence"], fallback is enabled, no
    entry of the registry yields a result meeting the thresholds, and
    [attempts] holds every name of the registry. *)
Theorem register_output_is_an_algorithm_result src ref w out :
  fst (register src ref w) = Ok out ->
  (exists algo,
      In (algorithm out, algo) (algorithms (engine w)) /\
      align algo src ref = Ok (Some (result out))) /\
  ((status out = "accepted"%string /\
    (min_score (config (engine w)) <=? score (result out))%float = true /\
    (min_inlier_ratio (config (engine w)) <=? inlier_ratio (result out))%float = true)
   \/
   (status out = "fallback_low_confidence"%string /\
    enable_fallback (config (engine w)) = true /\
    Forall (rejected (config (engine w)) src ref) (algorithms (engine w)) /\
    attempts out = map fst (algorithms (engine w)))).
Proof.
  intros Hout.
  destruct (first_acceptable_or_none (config (engine w)) src ref (algorithms (engine w)))
    as [(pre & name & algo & post & r & Hsplit & Hpre & Ha & Hm) | Hrej].
  - destruct (register_when_accepted src ref w pre name algo post r Hsplit Hpre Ha Hm)
      as (w' & _ & _ & Hreg).
    rewrite Hreg in Hout. cbn in Hout. injection Hout as <-. cbn. split.
    + exists algo. split; [|exact Ha]. rewrite Hsplit. apply in_or_app. right. now left.
    + left. unfold meets_thresholds in Hm. apply andb_true_iff in Hm. tauto.
  - destruct (register_when_exhausted src ref w Hrej) as (w' & _ & _ & Hreg).
    rewrite Hreg in Hout. cbn [fst] in Hout.
    destruct (best_after src ref (algorithms (engine w)) None None) as [[b|] oa] eqn:Hbest;
      cbn in Hout; [|discriminate].
    destruct (enable_fallback (config (engine w))) eqn:Hfb; cbn in Hout; [|discriminate].
    destruct oa as [n|]; [|discriminate]. injection Hout as <-. cbn. split.
    + destruct (best_after_provenance src ref _ _ _ _ _ Hbest)
        as [[Hb _] | (algo & Hin & Ho)]; [discriminate|].
      exists algo. split; [exact Hin | now apply outcome_align].
    + right. auto.
Qed.

(** Over algorithms that raise nothing outside [Exception], [register]
    raises in two situations.  Either every entry of the registry raised or
    returned [None], and the error is the one listing all names; or fallback
    is disabled, no entry yields a result meeting the thresholds, and the
    error reports the result of one of the entries with that entry's name.
    Module [Full] has the statement over all algorithms. *)
Theorem register_raises_only_without_usable_result src ref w e :
  fst (register src ref w) = Raise e ->
  (all_empty src ref (algorithms (engine w)) /\
   e = RegistrationError (no_homography_message (map fst (algorithms (engine w)))))
  \/
  (enable_fallback (config (engine w)) = false /\
   Forall (rejected (config (engine w)) src ref) (algorithms (engine w)) /\
   exists name algo best,
     In (name, algo) (algorithms (engine w)) /\
     align algo src ref = Ok (Some best) /\
     e = RegistrationError
           (below_thresholds_message (config (engine w)) best (Some name))).
Proof.
  intros Hraise.
  destruct (first_acceptable_or_none (config (engine w)) src ref (algorithms (engine w)))
    as [(pre & name & algo & post & r & Hsplit & Hpre & Ha & Hm) | Hrej].
  - destruct (register_when_accepted src ref w pre name algo post r Hsplit Hpre Ha Hm)
      as (w' & _ & _ & Hreg).
    rewrite Hreg in Hraise. discriminate.
  - destruct (register_when_exhausted src ref w Hrej) as (w' & _ & _ & Hreg).
    rewrite Hreg in Hraise. cbn [fst] in Hraise.
    assert (Hpair := best_after_paired src ref (algorithms (engine w)) None None
                       (conj (fun _ => eq_refl) (fun _ => eq_refl))).
    destruct (best_after src ref (algorithms (engine w)) None None) as [[b|] oa] eqn:Hbest;
      cbn [concluded fst snd] in Hraise; cbn in Hpair.
    + destruct (enable_fallback (config (engine w))) eqn:Hfb; cbn [negb] in Hraise.
      * destruct oa as [n|]; [discriminate|].
        destruct Hpair as [_ Hnone]. discriminate (Hnone eq_refl).
      * destruct oa as [n|].
        -- right. split; [reflexivity|]. split; [exact Hrej|].
           destruct (best_after_provenance src ref _ _ _ _ _ Hbest)
             as [[Hb _] | (algo & Hin & Ho)]; [discriminate|].
           exists n, algo, b. apply outcome_align in Ho. repeat split; congruence.
        -- destruct Hpair as [_ Hnone]. discriminate (Hnone eq_refl).
    + left. split; [|congruence].
      apply (best_after_none_all_empty src ref _ None None). now rewrite Hbest.
Qed.

(** X12 -- [attempts] is the record of the invocations.  In an output of
    [register], [attempts] is a non-empty initial segment of the registry's
    names, and it lists, in order, exactly the entries whose [align] was
    entered during the call. *)
Theorem register_attempts_are_the_invocations src ref w out :
  fst (register src ref w) = Ok out ->
  attempts out <> [] /\
  (exists later, map fst (algorithms (engine w)) = attempts out ++ later) /\
  align_calls (events (snd (register src ref w)))
  = align_calls (events w) ++ attempts out.
Proof.
  intros Hout.
  destruct (register_total src ref w) as (k & _ & Hc & Hk & Hres).
  rewrite Hout in Hres. rewrite <- Hres in Hc. split; [|split; [|exact Hc]].
  - destruct (algorithms (engine w)) as [|item items] eqn:Hreg.
    + exfalso.
      assert (Hrej : Forall (rejected (config (engine w)) src ref) (algorithms (engine w)))
        by (rewrite Hreg; constructor).
      destruct (register_when_exhausted src ref w Hrej) as (w' & _ & _ & Hrun).
      rewrite Hrun, Hreg in Hout. discriminate.
    + rewrite Hres. destruct k as [|k]; [|cbn; congruence].
      assert (1 <= 0)%nat by (apply Hk; congruence). lia.
  - exists (skipn k (map fst (algorithms (engine w)))).
    rewrite Hres. symmetry. apply firstn_skipn.
Qed.


(** *** What the logger is told *)

(** After the loop [register] adds at most its closing record. *)
Lemma register_trace src ref w :
  exists tail,
    events (snd (register src ref w))
    = events (snd (register_loop src ref (algorithms (engine w)) None None []
                                 (started w))) ++ tail.
Proof.
  rewrite register_explicit.
  destruct (register_loop src ref (algorithms (engine w)) None None [] (started w))
    as [[[out | [best|] ba att] | e'] w1]; cbn [snd].
  - exists []. now rewrite app_nil_r.
  - destruct (negb (enable_fallback (config (engine w1)))); eexists; reflexivity.
  - eexists; reflexivity.
  - exists []. now rewrite app_nil_r.
Qed.

(** X3 -- A fault is reported.  When the loop reaches an entry whose
    [align] raises [e], an [Exception], the logger receives, right after
    that call, a WARNING record "Algorithm <name> raised exception:
    <str(e)>"; nothing logged before the call to [register] is lost.  (An
    exception outside [Exception] is not logged: see module [Full].) *)
Theorem register_logs_fault_as_warning src ref w pre name algo post e :
  algorithms (engine w) = pre ++ (name, algo) :: post ->
  Forall (rejected (config (engine w)) src ref) pre ->
  align algo src ref = Raise e ->
  exists before after,
    events (snd (register src ref w))
    = events w ++ before
      ++ [AlignCall name;
          LogRecord WARNING ("Algorithm " ++ name ++ " raised exception: "
                             ++ exc_str e)%string]
      ++ after.
Proof.
  intros Hsplit Hrej Hraise.
  destruct (loop_trace_fault src ref pre name algo post e None None [] (started w)
              Hrej Hraise) as (before & after & Hev).
  rewrite <- Hsplit in Hev.
  destruct (register_trace src ref w) as (tail & ->).
  rewrite Hev. unfold fault_record.
  exists (LogRecord INFO ("Starting registration with "
                         ++ str_of_Z (Z.of_nat (Dict.len (algorithms (engine w))))
                         ++ " algorithms")%string :: before), (after ++ tail).
  unfold started. cbn [events]. rewrite <- !app_assoc. reflexivity.
Qed.


(** *** The thresholds *)

(** X9 -- Relaxing the thresholds never rejects what was acceptable.  A
    result that [_is_acceptable] accepts under one config is accepted under
    any config whose two thresholds are not higher. *)
Theorem relaxed_thresholds_accept_no_less r w w' :
  fst (_is_acceptable r w) = Ok true ->
  (min_score (config (engine w')) <=? min_score (config (engine w)))%float = true ->
  (min_inlier_ratio (config (engine w'))
   <=? min_inlier_ratio (config (engine w)))%float = true ->
  fst (_is_acceptable r w') = Ok true.
Proof.
  unfold _is_acceptable, meets_thresholds. run_monad.
  intros Hacc Hs Hi. injection Hacc as Hacc. apply andb_true_iff in Hacc as [Hrs Hri].
  now rewrite (leb_trans _ _ _ Hs Hrs), (leb_trans _ _ _ Hi Hri).
Qed.

Lemma valid_result_inlier_ratio r :
  valid_result r -> in_unit_interval (inlier_ratio r) = true.
Proof.
  unfold valid_result, RegistrationResult_post_init.
  destruct (in_unit_interval (score r)); cbn; [|discriminate].
  destruct (in_unit_interval (inlier_ratio r)); cbn; [reflexivity | discriminate].
Qed.

(** X10 -- With thresholds at zero the first result wins.  If neither
    threshold is above [0.0], the registry is [pre ++ (name, algo) :: post],
    every entry of [pre] raises or returns [None], and [algo] returns a valid
    result [r], then [register] returns [r] as ["accepted"], whatever the
    later entries would give. *)
Theorem zero_thresholds_accept_first_result src ref w pre name algo post r :
  (min_score (config (engine w)) <=? 0)%float = true ->
  (min_inlier_ratio (config (engine w)) <=? 0)%float = true ->
  algorithms (engine w) = pre ++ (name, algo) :: post ->
  all_empty src ref pre ->
  align algo src ref = Ok (Some r) ->
  valid_result r ->
  fst (register src ref w)
  = Ok (mkRegistrationOutput name "accepted" r (map fst pre ++ [name])).
Proof.
  intros Hs Hi Hsplit Hempty Ha Hvalid.
  assert (Hm : meets_thresholds (config (engine w)) r = true).
  { unfold meets_thresholds.
    pose proof (valid_result_score r Hvalid) as Hrs.
    pose proof (valid_result_inlier_ratio r Hvalid) as Hri.
    unfold in_unit_interval in Hrs, Hri.
    apply andb_true_iff in Hrs as [Hrs _]. apply andb_true_iff in Hri as [Hri _].
    now rewrite (leb_trans _ _ _ Hs Hrs), (leb_trans _ _ _ Hi Hri). }
  assert (Hrej : Forall (rejected (config (engine w)) src ref) pre).
  { apply Forall_forall. intros [n a] Hin r' Hr'. cbn in Hr'.
    rewrite (Hempty n a Hin) in Hr'. discriminate. }
  destruct (register_when_accepted src ref w pre name algo post r Hsplit Hrej Ha Hm)
    as (w' & _ & _ & ->).
  reflexivity.
Qed.

(** *** Constructors *)

(** X13 -- [EngineConfig] keeps thresholds within range and refuses NaN.
    With both thresholds within [0.0 <= x <= 1.0] the constructor returns
    the config holding exactly the given values; a NaN threshold raises
    [ValueError]. *)
Theorem EngineConfig_new_accepts_range_refuses_nan (ms mi : float) (fb : bool) :
  (in_unit_interval ms = true -> in_unit_interval mi = true ->
   EngineConfig_new ms mi fb = Ok (mkEngineConfig ms mi fb)) /\
  (is_nan ms = true \/ is_nan mi = true ->
   exists msg, EngineConfig_new ms mi fb = Raise (ValueError msg)).
Proof.
  unfold EngineConfig_new, EngineConfig_post_init. cbn. split.
  - intros -> ->. reflexivity.
  - intros Hnan.
    destruct (in_unit_interval ms) eqn:Hms; cbn; [|eauto].
    destruct (in_unit_interval mi) eqn:Hmi; cbn; [|eauto].
    destruct Hnan as [H | H]; apply nan_outside_unit_interval in H; congruence.
Qed.

(** X8 -- The constructor of the engine.  For a non-empty dictionary of
    algorithms the constructor returns an engine holding that dictionary as
    it is, with the config passed in or, when none is passed, with the
    defaults [min_score = 0.85], [min_inlier_ratio = 0.6],
    [enable_fallback = True]. *)
Theorem engine_init_keeps_registry_and_defaults
    (algos : dict (AlgorithmBase Image Homography Metadata)) (cfg : option EngineConfig) :
  algos <> [] ->
  ImageRegistrationEngine_init algos cfg
  = Ok (mkEngine algos
          (match cfg with
           | Some c => c
           | None => mkEngineConfig 0.85 0.6 true
           end)).
Proof.
  intros Hne. destruct algos as [|item algos]; [congruence|].
  destruct cfg as [c|]; [reflexivity|].
  unfold ImageRegistrationEngine_init.
  assert (Hdef : EngineConfig_default = Ok (mkEngineConfig 0.85 0.6 true))
    by (vm_compute; reflexivity).
  now rewrite Hdef.
Qed.

(** *** The registry under mutation *)

(** X5 -- [unregister_algorithm] removes exactly the named entry.  On a
    registry (without repeated keys) that does not hold exactly one entry,
    the call returns; afterwards the registry is the old one with the entry
    of that name left out and the others in their order, so the name is no
    longer registered; the config is untouched.  For a name that was not
    registered this leaves the registry as it was. *)
Theorem unregister_algorithm_removes_exactly_that_entry w name :
  Dict.wf (algorithms (engine w)) ->
  Dict.len (algorithms (engine w)) <> 1%nat ->
  fst (unregister_algorithm name w) = Ok tt /\
  algorithms (engine (snd (unregister_algorithm name w)))
  = Dict.without name (algorithms (engine w)) /\
  Dict.contains name (algorithms (engine (snd (unregister_algorithm name w)))) = false /\
  config (engine (snd (unregister_algorithm name w))) = config (engine w).
Proof.
  intros Hwf Hlen.
  assert (Hreg : fst (unregister_algorithm name w) = Ok tt /\
                 algorithms (engine (snd (unregister_algorithm name w)))
                 = Dict.without name (algorithms (engine w)) /\
                 config (engine (snd (unregister_algorithm name w))) = config (engine w)).
  { destruct (Dict.contains name (algorithms (engine w))) eqn:Hin.
    - destruct (unregister_algorithm_present w name Hlen Hin)
        as (w' & -> & Hdel & _ & Hcfg).
      rewrite (Dict.delitem_without name _ Hwf Hin) in Hdel. cbn.
      repeat split; congruence.
    - rewrite (unregister_algorithm_absent w name Hlen Hin). cbn.
      now rewrite Dict.without_absent. }
  destruct Hreg as (Hok & Hreg & Hcfg).
  repeat split; try assumption. rewrite Hreg. apply Dict.contains_without.
Qed.

(** X6 -- Registering a new name and unregistering it again is a round
    trip.  On a non-empty registry that does not hold [name], after
    [register_algorithm(name, algo)] the call [unregister_algorithm(name)]
    returns and the engine object, registry with its order and config, is
    the one before the two calls. *)
Theorem register_then_unregister_restores_engine w name algo :
  algorithms (engine w) <> [] ->
  Dict.contains name (algorithms (engine w)) = false ->
  fst (unregister_algorithm name (snd (register_algorithm name algo w))) = Ok tt /\
  engine (snd (unregister_algorithm name (snd (register_algorithm name algo w))))
  = engine w.
Proof.
  destruct w as [[d cfg] evs]. cbn [engine algorithms]. intros Hne Habs.
  set (w1 := snd (register_algorithm name algo (mkWorld (mkEngine d cfg) evs))).
  assert (Hreg : algorithms (engine w1) = d ++ [(name, algo)]).
  { unfold w1, register_algorithm. run_monad. now apply Dict.setitem_absent. }
  assert (Hcfg : config (engine w1) = cfg) by reflexivity.
  assert (Hlen : Dict.len (algorithms (engine w1)) <> 1%nat).
  { rewrite Hreg. unfold Dict.len. rewrite length_app. cbn.
    destruct d; [congruence | cbn; lia]. }
  assert (Hin : Dict.contains name (algorithms (engine w1)) = true).
  { rewrite Hreg. apply Dict.contains_appended. }
  destruct (unregister_algorithm_present w1 name Hlen Hin)
    as (w' & -> & Hdel & _ & Hcfg').
  rewrite Hreg, (Dict.delitem_appended name algo d Habs) in Hdel.
  injection Hdel as Hdel. cbn [fst snd]. split; [reflexivity|].
  destruct (engine w') as [d' cfg']. cbn in Hdel, Hcfg'. congruence.
Qed.

(** X7 -- Unregistering and registering again moves an algorithm to the
    end.  On a registry (without repeated keys) of two or more entries that
    holds [name], [unregister_algorithm(name)] followed by
    [register_algorithm(name, algo)] leaves the other entries in their order
    and puts [(name, algo)] last, so it is tried last. *)
Theorem reregistering_moves_entry_to_the_end w name algo :
  Dict.wf (algorithms (engine w)) ->
  Dict.len (algorithms (engine w)) <> 1%nat ->
  Dict.contains name (algorithms (engine w)) = true ->
  algorithms (engine (snd (register_algorithm name algo
                             (snd (unregister_algorithm name w)))))
  = Dict.without name (algorithms (engine w)) ++ [(name, algo)].
Proof.
  intros Hwf Hlen Hin.
  destruct (unregister_algorithm_present w name Hlen Hin) as (w' & -> & Hdel & _ & _).
  rewrite (Dict.delitem_without name _ Hwf Hin) in Hdel. injection Hdel as Hdel.
  cbn [snd]. unfold register_algorithm. run_monad. rewrite <- Hdel.
  apply Dict.setitem_absent, Dict.contains_without.
Qed.

(** A caller's use of an engine: any of the three public methods, the
    caller going on whether the call returned or raised. *)
Inductive Call : Type :=
| CallRegister (src ref : Image)
| CallRegisterAlgorithm (name : string) (algo : AlgorithmBase Image Homography Metadata)
| CallUnregisterAlgorithm (name : string).

Definition after_call w (c : Call) : World Image Homography Metadata :=
  match c with
  | CallRegister src ref => snd (register src ref w)
  | CallRegisterAlgorithm name algo => snd (register_algorithm name algo w)
  | CallUnregisterAlgorithm name => snd (unregister_algorithm name w)
  end.

Definition after_calls w (calls : list Call) : World Image Homography Metadata :=
  fold_left after_call calls w.

Lemma setitem_nonempty name algo (d : dict (AlgorithmBase Image Homography Metadata)) :
  Dict.setitem name algo d <> [].
Proof. destruct d as [|[k v] d]; cbn; [|destruct (String.eqb k name)]; congruence. Qed.

Lemma after_call_keeps_invariants w c cfg :
  algorithms (engine w) <> [] /\ Dict.wf (algorithms (engine w))
  /\ config (engine w) = cfg ->
  algorithms (engine (after_call w c)) <> [] /\
  Dict.wf (algorithms (engine (after_call w c))) /\
  config (engine (after_call w c)) = cfg.
Proof.
  intros (Hne & Hwf & Hcfg). destruct c as [src ref | name algo | name]; cbn [after_call].
  - destruct (register_total src ref w) as (k & -> & _). auto.
  - unfold register_algorithm. run_monad.
    split; [apply setitem_nonempty|]. split; [now apply Dict.setitem_wf | exact Hcfg].
  - destruct (Nat.eq_dec (Dict.len (algorithms (engine w))) 1) as [Hone | Hlen].
    + rewrite (unregister_algorithm_single w name Hone). cbn. auto.
    + destruct (Dict.contains name (algorithms (engine w))) eqn:Hin.
      * destruct (unregister_algorithm_present w name Hlen Hin)
          as (w' & -> & Hdel & Hsize & Hcfg').
        rewrite (Dict.delitem_without name _ Hwf Hin) in Hdel. injection Hdel as Hdel.
        cbn. split; [|split; [|congruence]].
        -- intros Hnil. rewrite Hnil in Hsize. cbn in Hsize. congruence.
        -- rewrite <- Hdel. now apply Dict.without_wf.
      * rewrite (unregister_algorithm_absent w name Hlen Hin). cbn. auto.
Qed.

(** X4 -- What no sequence of calls changes.  An engine built by the
    constructor from a dictionary (without repeated keys) keeps, through any
    sequence of [register], [register_algorithm] and [unregister_algorithm]
    calls, a registry that is not empty and has no repeated key, and the
    config it was built with. *)
Theorem registry_invariants_hold_across_calls
    (algos : dict (AlgorithmBase Image Homography Metadata))
    (cfg : option EngineConfig) (e : ImageRegistrationEngine Image Homography Metadata)
    (calls : list Call) :
  ImageRegistrationEngine_init algos cfg = Ok e ->
  Dict.wf algos ->
  algorithms (engine (after_calls (mkWorld e []) calls)) <> [] /\
  Dict.wf (algorithms (engine (after_calls (mkWorld e []) calls))) /\
  config (engine (after_calls (mkWorld e []) calls)) = config e.
Proof.
  intros Hinit Hwf.
  assert (Hstart : algorithms (engine (mkWorld e [])) <> [] /\
                   Dict.wf (algorithms (engine (mkWorld e []))) /\
                   config (engine (mkWorld e [])) = config e).
  { unfold ImageRegistrationEngine_init in Hinit.
    destruct algos as [|item algos]; [discriminate|].
    destruct (match cfg with Some c => Ok c | None => EngineConfig_default end)
      as [c|err]; [|discriminate].
    injection Hinit as <-. cbn. repeat split; [congruence | exact Hwf]. }
  revert Hstart. generalize (mkWorld e []) as w.
  unfold after_calls. induction calls as [|c calls IH]; intros w Hw; cbn; [exact Hw|].
  apply IH, after_call_keeps_invariants, Hw.
Qed.

End Properties.

(* ================================================================= *)
(** ** The scenarios of tests/test_engine.py *)

Section Fixtures.

Open Scope list_scope.
Open Scope float_scope.

(** The tests pass [None] for both images, a nested list or [None] for the
    homography, and a dictionary of strings for the metadata. *)
Definition Matrix : Type := option (list (list Z)).
Definition Meta : Type := list (string * string).

Definition identity_matrix : Matrix := Some [[1; 0; 0]; [0; 1; 0]; [0; 0; 1]]%Z.

Definition good_result : RegistrationResult Matrix Meta :=
  mkRegistrationResult 0.92 0.75 identity_matrix 150 None.

Definition mediocre_result : RegistrationResult Matrix Meta :=
  mkRegistrationResult 0.70 0.45 identity_matrix 80 None.

Definition poor_result : RegistrationResult Matrix Meta :=
  mkRegistrationResult 0.40 0.20 identity_matrix 30 None.

(** Exactly at the default thresholds ([test_exact_threshold_values]). *)
Definition threshold_result : RegistrationResult Matrix Meta :=
  mkRegistrationResult 0.85 0.6 identity_matrix 100 None.

(** [MockAlgorithm(name, result)]. *)
Definition MockAlgorithm (result : option (RegistrationResult Matrix Meta))
  : AlgorithmBase unit Matrix Meta :=
  mkAlgorithm (fun _ _ => Ok result).

(** [FailingAlgorithm(name)]. *)
Definition FailingAlgorithm : AlgorithmBase unit Matrix Meta :=
  mkAlgorithm (fun _ _ => Raise (RuntimeError "Simulated algorithm failure")).

Definition default_config : EngineConfig := mkEngineConfig 0.85 0.6 true.

Definition strict_config : EngineConfig := mkEngineConfig 0.85 0.6 false.

(** A freshly built engine, nothing logged yet. *)
Definition fresh (algos : dict (AlgorithmBase unit Matrix Meta)) (cfg : EngineConfig)
  : World unit Matrix Meta :=
  mkWorld (mkEngine algos cfg) [].

End Fixtures.

Example config_defaults : EngineConfig_default = Ok default_config.
Proof. vm_compute. reflexivity. Qed.

Example fixtures_are_valid :
  map (fun r => RegistrationResult_new (score r) (inlier_ratio r) (homography r)
                                       (matches_count r) (metadata r))
      [good_result; mediocre_result; poor_result; threshold_result]
  = map Ok [good_result; mediocre_result; poor_result; threshold_result].
Proof. vm_compute. reflexivity. Qed.

Example test_invalid_score_above_one :
  RegistrationResult_new 1.5 0.5 (None : Matrix) 100 (None : option Meta)
  = Raise (ValueError "Score must be in [0.0, 1.0], got 1.5").
Proof. vm_compute. reflexivity. Qed.

(** [float("nan")] fails the chained comparison as well. *)
Example nan_score_is_refused :
  RegistrationResult_new nan 0.5 (None : Matrix) 100 (None : option Meta)
  = Raise (ValueError "Score must be in [0.0, 1.0], got nan").
Proof. vm_compute. reflexivity. Qed.

Example test_invalid_matches_count :
  RegistrationResult_new 0.8 0.5 (None : Matrix) (-10) (None : option Meta)
  = Raise (ValueError "Matches count must be >= 0, got -10").
Proof. vm_compute. reflexivity. Qed.

Example test_multiple_algorithms_first_succeeds :
  fst (register tt tt (fresh [("SIFT", MockAlgorithm (Some good_result));
                              ("ORB", MockAlgorithm (Some mediocre_result))]
                             default_config))
  = Ok (mkRegistrationOutput "SIFT" "accepted" good_result ["SIFT"]).
Proof. vm_compute. reflexivity. Qed.

Example test_fallback_to_second_algorithm :
  fst (register tt tt (fresh [("ORB", MockAlgorithm (Some mediocre_result));
                              ("SIFT", MockAlgorithm (Some good_result))]
                             default_config))
  = Ok (mkRegistrationOutput "SIFT" "accepted" good_result ["ORB"; "SIFT"]).
Proof. vm_compute. reflexivity. Qed.

Example test_fallback_low_confidence :
  fst (register tt tt (fresh [("ORB", MockAlgorithm (Some poor_result));
                              ("SIFT", MockAlgorithm (Some mediocre_result))]
                             default_config))
  = Ok (mkRegistrationOutput "SIFT" "fallback_low_confidence" mediocre_result
                             ["ORB"; "SIFT"]).
Proof. vm_compute. reflexivity. Qed.

Example test_no_valid_homography_raises :
  fst (register tt tt (fresh [("SIFT", MockAlgorithm None); ("ORB", MockAlgorithm None)]
                             default_config))
  = Raise (RegistrationError
             "No alignment produced a valid homography. Attempted: SIFT, ORB").
Proof. vm_compute. reflexivity. Qed.

Example test_algorithm_exception_handled :
  register tt tt (fresh [("FailAlgo", FailingAlgorithm);
                         ("SIFT", MockAlgorithm (Some good_result))] default_config)
  = (Ok (mkRegistrationOutput "SIFT" "accepted" good_result ["FailAlgo"; "SIFT"]),
     mkWorld
       (mkEngine [("FailAlgo", FailingAlgorithm);
                  ("SIFT", MockAlgorithm (Some good_result))] default_config)
       [LogRecord INFO "Starting registration with 2 algorithms";
        LogRecord DEBUG "Attempting algorithm: FailAlgo";
        AlignCall "FailAlgo";
        LogRecord WARNING
          "Algorithm FailAlgo raised exception: Simulated algorithm failure";
        LogRecord DEBUG "Attempting algorithm: SIFT";
        AlignCall "SIFT";
        LogRecord DEBUG "Algorithm SIFT: score=0.920, inlier_ratio=0.750, matches=150";
        LogRecord INFO "Accepted result from SIFT (score=0.920, inlier_ratio=0.750)"]).
Proof. vm_compute. reflexivity. Qed.

(** A [KeyError] is logged with the [repr] of its key. *)
Example key_error_is_logged_with_repr :
  map exc_str [KeyError "SIFT"; KeyError "it's"; RuntimeError "it's"]
  = ["'SIFT'"; String PyStr.double_quote ("it's" ++ String PyStr.double_quote "");
     "it's"]%string.
Proof. vm_compute. reflexivity. Qed.

Example test_score_above_inlier_below_threshold :
  fst (register tt tt
         (fresh [("SIFT", MockAlgorithm
                            (Some (mkRegistrationResult 0.95 0.30 identity_matrix 100 None)))]
                default_config))
  = Ok (mkRegistrationOutput "SIFT" "fallback_low_confidence"
          (mkRegistrationResult 0.95 0.30 identity_matrix 100 None) ["SIFT"]).
Proof. vm_compute. reflexivity. Qed.

Example test_unregister_algorithm :
  unregister_algorithm "ORB"
    (fresh [("SIFT", MockAlgorithm (Some good_result));
            ("ORB", MockAlgorithm (Some good_result))] default_config)
  = (Ok tt,
     mkWorld (mkEngine [("SIFT", MockAlgorithm (Some good_result))] default_config)
             [LogRecord INFO "Unregistering algorithm: ORB"]).
Proof. vm_compute. reflexivity. Qed.

(* ================================================================= *)
(** ** The theorems at concrete engines *)

Open Scope list_scope.

Ltac fixture_outcome H :=
  cbn in H; first [discriminate H | injection H as <-].

Ltac fixture_rejected :=
  repeat constructor; intros r H; fixture_outcome H; vm_compute; reflexivity.

Ltac fixture_valid :=
  intros n a r Hin Ho; cbn in Hin;
  repeat (destruct Hin as [Heq | Hin];
          [inversion Heq; subst; fixture_outcome Ho; vm_compute; reflexivity|]);
  destruct Hin.

(** [test_fallback_low_confidence]. *)
Definition two_below : World unit Matrix Meta :=
  fresh [("ORB", MockAlgorithm (Some poor_result));
         ("SIFT", MockAlgorithm (Some mediocre_result))] default_config.

Lemma register_falls_back_witness :
  exists pre name algo post best,
    algorithms (engine two_below) = pre ++ (name, algo) :: post /\
    align algo tt tt = Ok (Some best) /\
    all_below tt tt pre best /\
    none_above tt tt post best /\
    fst (register tt tt two_below)
    = Ok (mkRegistrationOutput name "fallback_low_confidence" best ["ORB"; "SIFT"]) /\
    align_calls (events (snd (register tt tt two_below))) = ["ORB"; "SIFT"].
Proof.
  apply (register_falls_back_to_first_best tt tt two_below).
  - reflexivity.
  - fixture_rejected.
  - exists "ORB", (MockAlgorithm (Some poor_result)), poor_result.
    split; [left; reflexivity | reflexivity].
  - fixture_valid.
Defined.

(** An entry exactly at the thresholds, between one below them and one
    above. *)
Definition boundary_in_the_middle : World unit Matrix Meta :=
  fresh [("ORB", MockAlgorithm (Some mediocre_result));
         ("SIFT", MockAlgorithm (Some threshold_result));
         ("AKAZE", MockAlgorithm (Some good_result))] default_config.

Lemma register_accepts_first_acceptable_witness :
  fst (register tt tt boundary_in_the_middle)
  = Ok (mkRegistrationOutput "SIFT" "accepted" threshold_result ["ORB"; "SIFT"]) /\
  align_calls (events (snd (register tt tt boundary_in_the_middle))) = ["ORB"; "SIFT"].
Proof.
  apply (register_accepts_first_acceptable tt tt boundary_in_the_middle
           [("ORB", MockAlgorithm (Some mediocre_result))]
           "SIFT" (MockAlgorithm (Some threshold_result))
           [("AKAZE", MockAlgorithm (Some good_result))] threshold_result).
  - reflexivity.
  - fixture_rejected.
  - reflexivity.
  - right. split; vm_compute; reflexivity.
Defined.

(** [test_fallback_disabled_raises], with a second algorithm that finds
    nothing. *)
Definition one_below_strict : World unit Matrix Meta :=
  fresh [("SIFT", MockAlgorithm (Some mediocre_result));
         ("ORB", MockAlgorithm None)] strict_config.

Lemma register_fallback_disabled_witness :
  exists pre name algo post best,
    algorithms (engine one_below_strict) = pre ++ (name, algo) :: post /\
    align algo tt tt = Ok (Some best) /\
    all_below tt tt pre best /\
    none_above tt tt post best /\
    fst (register tt tt one_below_strict)
    = Raise (RegistrationError
               ("No alignment met quality thresholds (min_score="
                ++ float_repr 0.85 ++ ", min_inlier_ratio=" ++ float_repr 0.6
                ++ "). Best score: " ++ format_3f (score best)
                ++ " from " ++ name)%string).
Proof.
  apply (register_fallback_disabled_raises tt tt one_below_strict).
  - reflexivity.
  - fixture_rejected.
  - exists "SIFT", (MockAlgorithm (Some mediocre_result)), mediocre_result.
    split; [left; reflexivity | reflexivity].
  - fixture_valid.
Defined.

(** C3, as stated, fails here: both algorithms were attempted, and the
    message of the [RegistrationError] names only the one with the best
    score. *)
Lemma register_error_omits_attempted_name :
  fst (register tt tt one_below_strict)
  = Raise (RegistrationError
             "No alignment met quality thresholds (min_score=0.85, min_inlier_ratio=0.6). Best score: 0.700 from SIFT") /\
  align_calls (events (snd (register tt tt one_below_strict))) = ["SIFT"; "ORB"] /\
  PyStr.contains "ORB"
    "No alignment met quality thresholds (min_score=0.85, min_inlier_ratio=0.6). Best score: 0.700 from SIFT"
  = false.
Proof. vm_compute. repeat split; reflexivity. Qed.

(** [test_no_valid_homography_raises]. *)
Definition nothing_found : World unit Matrix Meta :=
  fresh [("SIFT", MockAlgorithm None); ("ORB", MockAlgorithm None)] default_config.

Lemma register_all_empty_witness :
  fst (register tt tt nothing_found)
  = Raise (RegistrationError
             "No alignment produced a valid homography. Attempted: SIFT, ORB") /\
  align_calls (events (snd (register tt tt nothing_found))) = ["SIFT"; "ORB"] /\
  forall name,
    In name ["SIFT"; "ORB"] ->
    PyStr.contains name "No alignment produced a valid homography. Attempted: SIFT, ORB"
    = true.
Proof.
  apply (register_all_empty_raises tt tt nothing_found).
  intros n a Hin. cbn in Hin.
  destruct Hin as [Heq | [Heq | []]]; inversion Heq; reflexivity.
Defined.

(** [test_algorithm_exception_handled]. *)
Definition faulty_first : World unit Matrix Meta :=
  fresh [("FailAlgo", FailingAlgorithm);
         ("SIFT", MockAlgorithm (Some good_result))] default_config.


Lemma RegistrationResult_new_validates_witness :
  (exists msg,
      RegistrationResult_new 0.8 1.5 (None : Matrix) 100 (None : option Meta)
      = Raise (ValueError msg)) /\
  RegistrationResult_new 0.92 0.75 identity_matrix 150 (None : option Meta)
  = Ok good_result.
Proof.
  split.
  - apply (proj1 (RegistrationResult_new_validates 0.8 1.5 (None : Matrix) 100
                    (None : option Meta))).
    right. left. vm_compute. reflexivity.
  - apply (proj2 (RegistrationResult_new_validates 0.92 0.75 identity_matrix 150
                    (None : option Meta))).
    + vm_compute. reflexivity.
    + vm_compute. reflexivity.
    + lia.
Defined.

(** C4, as stated, fails here ([test_invalid_min_score]): the error of an
    out-of-range threshold is a [ValueError], which is not a
    [ConfigurationError]. *)
Lemma config_error_is_ValueError :
  EngineConfig_new 1.5 0.6 true
  = Raise (ValueError "min_score must be in [0.0, 1.0], got 1.5") /\
  raises_with is_ConfigurationError (EngineConfig_new 1.5 0.6 true) = false.
Proof. vm_compute. split; reflexivity. Qed.

(** [test_cannot_remove_last_algorithm]. *)
Definition only_sift : World unit Matrix Meta :=
  fresh [("SIFT", MockAlgorithm (Some good_result))] default_config.

Lemma configuration_failures_witness :
  (exists msg, EngineConfig_new 0.85 (-0.1) true = Raise (ValueError msg)) /\
  unregister_algorithm "SIFT" only_sift
  = (Raise (ConfigurationError "Cannot remove the last algorithm"), only_sift).
Proof.
  split.
  - apply (proj1 (proj2 (@configuration_failures unit Matrix Meta)) 0.85 (-0.1) true)%float.
    right. vm_compute. reflexivity.
  - apply (proj2 (proj2 (@configuration_failures unit Matrix Meta)) only_sift "SIFT"
                 (MockAlgorithm (Some good_result))).
    reflexivity.
Defined.

(** C5, where the code departs from it: a registry of one entry and a name
    that is not in it.  Nothing would be removed, and the call raises. *)
Theorem unregister_absent_name_raises_on_single_entry :
  Dict.contains "ORB" (algorithms (engine only_sift)) = false /\
  unregister_algorithm "ORB" only_sift
  = (Raise (ConfigurationError "Cannot remove the last algorithm"), only_sift).
Proof. vm_compute. split; reflexivity. Qed.

Lemma register_algorithm_witness :
  (exists before old after,
      algorithms (engine two_below) = before ++ ("ORB", old) :: after /\
      ~ In "ORB" (Dict.keys before) /\
      algorithms (engine (snd (register_algorithm "ORB" FailingAlgorithm two_below)))
      = before ++ ("ORB", FailingAlgorithm) :: after) /\
  algorithms (engine (snd (register_algorithm "AKAZE" FailingAlgorithm two_below)))
  = algorithms (engine two_below) ++ [("AKAZE", FailingAlgorithm)].
Proof.
  split.
  - apply (proj1 (proj2 (proj2 (register_algorithm_keeps_position_or_appends
                                  two_below "ORB" FailingAlgorithm)))).
    reflexivity.
  - apply (proj2 (proj2 (proj2 (register_algorithm_keeps_position_or_appends
                                  two_below "AKAZE" FailingAlgorithm)))).
    reflexivity.
Defined.

Example register_algorithm_overwrite_keeps_slot :
  Dict.keys (algorithms (engine (snd (register_algorithm "ORB" FailingAlgorithm two_below))))
  = ["ORB"; "SIFT"].
Proof. reflexivity. Qed.

(* ================================================================= *)
(** ** Further theorems at concrete engines *)

Ltac fixture_wf :=
  unfold Dict.wf; cbn;
  repeat (constructor; [cbn; intuition discriminate|]); constructor.

Lemma register_output_witness :
  (exists algo,
      In ("SIFT"%string, algo) (algorithms (engine two_below)) /\
      align algo tt tt = Ok (Some mediocre_result)) /\
  (("fallback_low_confidence" = "accepted"
    /\ (min_score default_config <=? score mediocre_result)%float = true
    /\ (min_inlier_ratio default_config <=? inlier_ratio mediocre_result)%float = true)
   \/
   ("fallback_low_confidence" = "fallback_low_confidence"
    /\ enable_fallback default_config = true
    /\ Forall (rejected default_config tt tt) (algorithms (engine two_below))
    /\ ["ORB"; "SIFT"] = map fst (algorithms (engine two_below))))%string.
Proof.
  apply (register_output_is_an_algorithm_result tt tt two_below
           (mkRegistrationOutput "SIFT" "fallback_low_confidence" mediocre_result
                                 ["ORB"; "SIFT"]%string)).
  vm_compute. reflexivity.
Defined.

Lemma register_attempts_witness :
  ["ORB"; "SIFT"]%string <> [] /\
  (exists later,
      map fst (algorithms (engine boundary_in_the_middle))
      = ["ORB"; "SIFT"]%string ++ later) /\
  align_calls (events (snd (register tt tt boundary_in_the_middle)))
  = align_calls (events boundary_in_the_middle) ++ ["ORB"; "SIFT"]%string.
Proof.
  apply (register_attempts_are_the_invocations tt tt boundary_in_the_middle
           (mkRegistrationOutput "SIFT" "accepted" threshold_result
                                 ["ORB"; "SIFT"]%string)).
  vm_compute. reflexivity.
Defined.

Lemma register_logs_fault_witness :
  exists before after,
    events (snd (register tt tt faulty_first))
    = events faulty_first ++ before
      ++ [AlignCall "FailAlgo";
          LogRecord WARNING
            "Algorithm FailAlgo raised exception: Simulated algorithm failure"]
      ++ after.
Proof.
  apply (register_logs_fault_as_warning tt tt faulty_first []
           "FailAlgo" FailingAlgorithm [("SIFT"%string, MockAlgorithm (Some good_result))]
           (RuntimeError "Simulated algorithm failure")).
  - reflexivity.
  - constructor.
  - reflexivity.
Defined.

(** The default thresholds, and lower ones. *)
Definition lenient_config : EngineConfig := mkEngineConfig 0.5 0.5 true.

Lemma relaxed_thresholds_witness :
  fst (_is_acceptable good_result (fresh [] lenient_config)) = Ok true.
Proof.
  apply (relaxed_thresholds_accept_no_less good_result
           (fresh [] default_config) (fresh [] lenient_config));
    vm_compute; reflexivity.
Defined.

(** Thresholds at zero; the first algorithm finds nothing. *)
Definition anything_goes : World unit Matrix Meta :=
  fresh [("SIFT", MockAlgorithm None);
         ("ORB", MockAlgorithm (Some poor_result));
         ("AKAZE", MockAlgorithm (Some good_result))]%string
        (mkEngineConfig 0 0 true).

Lemma zero_thresholds_witness :
  fst (register tt tt anything_goes)
  = Ok (mkRegistrationOutput "ORB" "accepted" poor_result ["SIFT"; "ORB"]%string).
Proof.
  apply (zero_thresholds_accept_first_result tt tt anything_goes
           [("SIFT"%string, MockAlgorithm None)]
           "ORB" (MockAlgorithm (Some poor_result))
           [("AKAZE"%string, MockAlgorithm (Some good_result))] poor_result).
  - vm_compute. reflexivity.
  - vm_compute. reflexivity.
  - reflexivity.
  - intros n a Hin. destruct Hin as [Heq | []]. inversion Heq. reflexivity.
  - reflexivity.
  - vm_compute. reflexivity.
Defined.

Lemma EngineConfig_new_witness :
  EngineConfig_new 0 1 false = Ok (mkEngineConfig 0 1 false) /\
  exists msg, EngineConfig_new nan 0.6 true = Raise (ValueError msg).
Proof.
  split.
  - apply (proj1 (EngineConfig_new_accepts_range_refuses_nan 0 1 false));
      vm_compute; reflexivity.
  - apply (proj2 (EngineConfig_new_accepts_range_refuses_nan nan 0.6 true)).
    left. vm_compute. reflexivity.
Defined.

Lemma engine_init_witness :
  ImageRegistrationEngine_init [("SIFT"%string, MockAlgorithm (Some good_result))] None
  = Ok (mkEngine [("SIFT"%string, MockAlgorithm (Some good_result))]
                 (mkEngineConfig 0.85 0.6 true)).
Proof.
  apply (engine_init_keeps_registry_and_defaults
           [("SIFT"%string, MockAlgorithm (Some good_result))] None).
  discriminate.
Defined.

Lemma unregister_algorithm_removes_witness :
  fst (unregister_algorithm "ORB" two_below) = Ok tt /\
  algorithms (engine (snd (unregister_algorithm "ORB" two_below)))
  = Dict.without "ORB" (algorithms (engine two_below)) /\
  Dict.contains "ORB" (algorithms (engine (snd (unregister_algorithm "ORB" two_below))))
  = false /\
  config (engine (snd (unregister_algorithm "ORB" two_below))) = config (engine two_below).
Proof.
  apply (unregister_algorithm_removes_exactly_that_entry two_below "ORB").
  - fixture_wf.
  - cbn. discriminate.
Defined.

Lemma register_then_unregister_witness :
  fst (unregister_algorithm "AKAZE"
         (snd (register_algorithm "AKAZE" FailingAlgorithm two_below))) = Ok tt /\
  engine (snd (unregister_algorithm "AKAZE"
                 (snd (register_algorithm "AKAZE" FailingAlgorithm two_below))))
  = engine two_below.
Proof.
  apply (register_then_unregister_restores_engine two_below "AKAZE" FailingAlgorithm).
  - cbn. discriminate.
  - reflexivity.
Defined.

Lemma reregistering_witness :
  algorithms (engine (snd (register_algorithm "ORB" FailingAlgorithm
                             (snd (unregister_algorithm "ORB" two_below)))))
  = [("SIFT"%string, MockAlgorithm (Some mediocre_result)); ("ORB"%string, FailingAlgorithm)].
Proof.
  apply (reregistering_moves_entry_to_the_end two_below "ORB" FailingAlgorithm).
  - fixture_wf.
  - cbn. discriminate.
  - reflexivity.
Defined.

(** A caller that unregisters everything it can, registers again and
    registers images in between. *)
Definition busy_caller : list (Call (Image := unit) (Homography := Matrix) (Metadata := Meta)) :=
  [CallUnregisterAlgorithm "ORB"; CallUnregisterAlgorithm "SIFT";
   CallRegister tt tt; CallRegisterAlgorithm "ORB" FailingAlgorithm;
   CallUnregisterAlgorithm "SIFT"; CallUnregisterAlgorithm "ORB"]%string.

Lemma registry_invariants_witness :
  algorithms (engine (after_calls (mkWorld (engine two_below) []) busy_caller)) <> [] /\
  Dict.wf (algorithms (engine (after_calls (mkWorld (engine two_below) []) busy_caller))) /\
  config (engine (after_calls (mkWorld (engine two_below) []) busy_caller))
  = config (engine two_below).
Proof.
  apply (registry_invariants_hold_across_calls
           (algorithms (engine two_below)) None (engine two_below) busy_caller).
  - vm_compute. reflexivity.
  - fixture_wf.
Defined.

Example busy_caller_ends_with :
  Dict.keys (algorithms (engine (after_calls (mkWorld (engine two_below) []) busy_caller)))
  = ["ORB"%string].
Proof. vm_compute. reflexivity. Qed.


(* ================================================================= *)
(** ** What an algorithm may raise, in full

    Above, an algorithm returns or raises an [Exception], and the
    [except Exception] of [register] catches whatever it raises.  Python also
    has exceptions outside [Exception], and these the clause lets through.
    [Full] is [register] once more, over algorithms that may raise either
    kind; where no algorithm raises outside [Exception] it does what
    [register] above does ([register_agrees_within_Exception]). *)

Module Full.

(** The classes of [BaseException] that do not derive from [Exception]. *)
Inductive PyBaseException : Type :=
| KeyboardInterrupt
| SystemExit (code : Z)
| GeneratorExit.

(** What a [raise] carries, by [isinstance(x, Exception)]. *)
Inductive Raised : Type :=
| AnException (e : PyException)
| NotAnException (b : PyBaseException).

Inductive Outcome (A : Type) : Type :=
| Returns (a : A)
| Raises (x : Raised).

Arguments Returns {A} a.
Arguments Raises {A} x.

Definition of_result {A} (r : Result A) : Outcome A :=
  match r with
  | Ok a => Returns a
  | Raise e => Raises (AnException e)
  end.

Section Model.

Context {Image Homography Metadata : Type}.

Open Scope string_scope.

(** [AlgorithmBase.align], with both kinds of exception. *)
Record AlgorithmBase : Type := mkAlgorithm {
  align : Image -> Image -> Outcome (option (RegistrationResult Homography Metadata))
}.

Record ImageRegistrationEngine : Type := mkEngine {
  algorithms : dict AlgorithmBase;
  config : EngineConfig
}.

Record World : Type := mkWorld {
  engine : ImageRegistrationEngine;
  events : list Event
}.

Definition M (A : Type) : Type := World -> Outcome A * World.

Definition ret {A} (a : A) : M A := fun w => (Returns a, w).

Definition raise {A} (e : PyException) : M A := fun w => (Raises (AnException e), w).

Definition bind {A B} (m : M A) (k : A -> M B) : M B :=
  fun w =>
    match m w with
    | (Returns a, w') => k a w'
    | (Raises x, w') => (Raises x, w')
    end.

(** [try: body / except Exception as e: handler]: the handler runs for an
    [Exception]; anything else goes on to the caller. *)
Definition try_except {A} (body : M A) (handler : PyException -> M A) : M A :=
  fun w =>
    match body w with
    | (Returns a, w') => (Returns a, w')
    | (Raises (AnException e), w') => handler e w'
    | (Raises (NotAnException b), w') => (Raises (NotAnException b), w')
    end.

Local Notation "x <- m ;; k" := (bind m (fun x => k))
  (at level 61, m at next level, right associativity).
Local Notation "m ;; k" := (bind m (fun _ => k))
  (at level 61, right associativity).

Definition get_algorithms : M (dict AlgorithmBase) :=
  fun w => (Returns (algorithms (engine w)), w).

Definition get_config : M EngineConfig :=
  fun w => (Returns (config (engine w)), w).

Definition emit (ev : Event) : M unit :=
  fun w => (Returns tt, mkWorld (engine w) (events w ++ [ev])).

Definition log (level : LogLevel) (msg : string) : M unit :=
  emit (LogRecord level msg).

Definition call_align (name : string) (algo : AlgorithmBase)
    (src_img ref_img : Image) : M (option (RegistrationResult Homography Metadata)) :=
  emit (AlignCall name) ;;
  fun w => (align algo src_img ref_img, w).

Definition _is_acceptable (result : RegistrationResult Homography Metadata) : M bool :=
  cfg <- get_config ;;
  ret (meets_thresholds cfg result).

(** [for name, algo in self.algorithms.items(): ...] *)
Fixpoint register_loop (src_img ref_img : Image)
    (items : list (string * AlgorithmBase))
    (best_result : option (RegistrationResult Homography Metadata))
    (best_algorithm : option string)
    (attempts : list string) : M (LoopExit Homography Metadata) :=
  match items with
  | [] => ret (Exhausted best_result best_algorithm attempts)
  | (name, algo) :: rest =>
      let attempts := (attempts ++ [name])%list in
      log DEBUG ("Attempting algorithm: " ++ name) ;;
      outcome <- try_except
                   (result <- call_align name algo src_img ref_img ;;
                    ret (Some result))
                   (fun e =>
                      log WARNING ("Algorithm " ++ name ++ " raised exception: "
                                   ++ exc_str e) ;;
                      ret None) ;;
      match outcome with
      | None =>
          register_loop src_img ref_img rest best_result best_algorithm attempts
      | Some None =>
          log DEBUG ("Algorithm " ++ name ++ " returned None (no valid alignment)") ;;
          register_loop src_img ref_img rest best_result best_algorithm attempts
      | Some (Some result) =>
          log DEBUG ("Algorithm " ++ name ++ ": score=" ++ format_3f (score result)
                     ++ ", inlier_ratio=" ++ format_3f (inlier_ratio result)
                     ++ ", matches=" ++ str_of_Z (matches_count result)) ;;
          let '(best_result, best_algorithm) :=
            track_best best_result best_algorithm name result in
          acceptable <- _is_acceptable result ;;
          if acceptable : bool then
            log INFO ("Accepted result from " ++ name ++ " (score="
                      ++ format_3f (score result) ++ ", inlier_ratio="
                      ++ format_3f (inlier_ratio result) ++ ")") ;;
            ret (Returned (mkRegistrationOutput name "accepted" result attempts))
          else
            register_loop src_img ref_img rest best_result best_algorithm attempts
      end
  end.

(** [ImageRegistrationEngine.register]. *)
Definition register (src_img ref_img : Image)
  : M (RegistrationOutput Homography Metadata) :=
  algos <- get_algorithms ;;
  log INFO ("Starting registration with "
            ++ str_of_Z (Z.of_nat (Dict.len algos)) ++ " algorithms") ;;
  exit <- register_loop src_img ref_img algos None None [] ;;
  match exit with
  | Returned out => ret out
  | Exhausted None _ attempts =>
      log ERROR "No algorithm produced a valid homography" ;;
      raise (RegistrationError (no_homography_message attempts))
  | Exhausted (Some best_result) best_algorithm attempts =>
      cfg <- get_config ;;
      if negb (enable_fallback cfg) then
        log ERROR ("Best result from " ++ str_of_optional best_algorithm
                   ++ " did not meet thresholds and fallback is disabled") ;;
        raise (RegistrationError
                 (below_thresholds_message cfg best_result best_algorithm))
      else
        log WARNING ("Using fallback result from " ++ str_of_optional best_algorithm
                     ++ " with score=" ++ format_3f (score best_result)
                     ++ " (below threshold=" ++ float_repr (min_score cfg) ++ ")") ;;
        match best_algorithm with
        | None => raise AssertionError
        | Some name =>
            ret (mkRegistrationOutput name "fallback_low_confidence"
                                      best_result attempts)
        end
  end.

(** *** The two models side by side *)

(** The algorithm as the model above has it.  Where it raises outside
    [Exception], which that model cannot express, the stand-in returns
    [None]; the statements below use it only for calls that do not raise in
    that way, or that the loop does not get to. *)
Definition within_Exception (algo : AlgorithmBase)
  : Engine.AlgorithmBase Image Homography Metadata :=
  Engine.mkAlgorithm
    (fun src ref =>
       match align algo src ref with
       | Returns v => Ok v
       | Raises (AnException e) => Raise e
       | Raises (NotAnException _) => Ok None
       end).

Definition items_within_Exception (items : list (string * AlgorithmBase))
  : list (string * Engine.AlgorithmBase Image Homography Metadata) :=
  map (fun item => (fst item, within_Exception (snd item))) items.

Definition world_within_Exception (w : World)
  : Engine.World Image Homography Metadata :=
  Engine.mkWorld
    (Engine.mkEngine (items_within_Exception (algorithms (engine w)))
                     (config (engine w)))
    (events w).

Definition logged (w : World) (evs : list Event) : World :=
  mkWorld (engine w) (events w ++ evs).

End Model.

Arguments AlgorithmBase : clear implicits.
Arguments ImageRegistrationEngine : clear implicits.
Arguments World : clear implicits.

Section Simulation.

Context {Image Homography Metadata : Type}.

Open Scope list_scope.

Implicit Types (w : World Image Homography Metadata).
Implicit Types (wb : Engine.World Image Homography Metadata).
Implicit Types (algo : AlgorithmBase Image Homography Metadata).
Implicit Types (items : list (string * AlgorithmBase Image Homography Metadata)).
Implicit Types (br : option (RegistrationResult Homography Metadata)).
Implicit Types (ba : option string) (att : list string) (src ref : Image).

Ltac run_full :=
  unfold bind, try_except, call_align, _is_acceptable, get_config,
    get_algorithms, log, emit, ret, raise; cbn.

(** One iteration: an exception outside [Exception] ends the loop and the
    call where [align] raised it, with nothing logged about it. *)
Lemma full_loop_step src ref name algo rest br ba att w :
  register_loop src ref ((name, algo) :: rest) br ba att w
  = match align algo src ref with
    | Raises (NotAnException b) =>
        (Raises (NotAnException b),
         logged w [attempting_record name; AlignCall name])
    | Raises (AnException e) =>
        register_loop src ref rest br ba (att ++ [name])
          (logged w [attempting_record name; AlignCall name; fault_record name e])
    | Returns None =>
        register_loop src ref rest br ba (att ++ [name])
          (logged w [attempting_record name; AlignCall name; nothing_record name])
    | Returns (Some r) =>
        if meets_thresholds (config (engine w)) r
        then (Returns (Returned (mkRegistrationOutput name "accepted" r (att ++ [name]))),
              logged w [attempting_record name; AlignCall name; score_record name r;
                        accepted_record name r])
        else register_loop src ref rest (fst (track_best br ba name r))
               (snd (track_best br ba name r)) (att ++ [name])
               (logged w [attempting_record name; AlignCall name; score_record name r])
    end.
Proof.
  unfold logged, attempting_record, fault_record, nothing_record, score_record,
    accepted_record.
  cbn [register_loop]. run_full.
  destruct (align algo src ref) as [[r|]|[e|b]]; cbn.
  - destruct (track_best br ba name r) as [br' ba']; cbn.
    destruct (meets_thresholds (config (engine w)) r); cbn;
      repeat rewrite <- app_assoc; reflexivity.
  - repeat rewrite <- app_assoc; reflexivity.
  - repeat rewrite <- app_assoc; reflexivity.
  - repeat rewrite <- app_assoc; reflexivity.
Qed.

(** [register], with what it does after the loop. *)
Lemma full_register_explicit src ref w :
  register src ref w
  = match register_loop src ref (algorithms (engine w)) None None []
            (logged w [LogRecord INFO
                         ("Starting registration with "
                          ++ str_of_Z (Z.of_nat (Dict.len (algorithms (engine w))))
                          ++ " algorithms")%string]) with
    | (Returns (Returned out), w1) => (Returns out, w1)
    | (Returns (Exhausted None _ att), w1) =>
        (Raises (AnException (RegistrationError (no_homography_message att))),
         logged w1 [LogRecord ERROR "No algorithm produced a valid homography"])
    | (Returns (Exhausted (Some best) ba att), w1) =>
        if negb (enable_fallback (config (engine w1))) then
          (Raises (AnException
                     (RegistrationError
                        (below_thresholds_message (config (engine w1)) best ba))),
           logged w1 [LogRecord ERROR
                        ("Best result from " ++ str_of_optional ba
                         ++ " did not meet thresholds and fallback is disabled")%string])
        else
          (match ba with
           | None => Raises (AnException AssertionError)
           | Some name =>
               Returns (mkRegistrationOutput name "fallback_low_confidence" best att)
           end,
           logged w1 [fallback_record (config (engine w1)) (str_of_optional ba) best])
    | (Raises x, w1) => (Raises x, w1)
    end.
Proof.
  unfold register, logged, fallback_record. run_full.
  destruct (register_loop src ref (algorithms (engine w)) None None [] _)
    as [[[out | [best|] ba att] | x] w1]; cbn; try reflexivity.
  destruct (enable_fallback (config (engine w1))); cbn; [|reflexivity].
  destruct ba; reflexivity.
Qed.

(** The loop either is left by an exception outside [Exception] that the
    [align] of an entry raised, or runs as the loop of the model above. *)
Lemma loop_passes_on_or_agrees src ref items : forall br ba att w wb,
  config (engine w) = Engine.config (Engine.engine wb) ->
  events w = Engine.events wb ->
  (exists name algo b,
      In (name, algo) items /\
      align algo src ref = Raises (NotAnException b) /\
      fst (register_loop src ref items br ba att w) = Raises (NotAnException b))
  \/
  register_loop src ref items br ba att w
  = (of_result (fst (Engine.register_loop src ref (items_within_Exception items)
                                          br ba att wb)),
     mkWorld (engine w)
             (Engine.events (snd (Engine.register_loop src ref
                                    (items_within_Exception items) br ba att wb)))).
Proof.
  induction items as [|[name algo] items IH]; intros br ba att w wb Hcfg Hev.
  - right. cbn. unfold ret, Engine.ret. cbn. rewrite <- Hev. now destruct w.
  - assert (Hnext : forall br1 ba1 evs,
               (exists name' algo' b,
                   In (name', algo') ((name, algo) :: items) /\
                   align algo' src ref = Raises (NotAnException b) /\
                   fst (register_loop src ref items br1 ba1 (att ++ [name])
                                      (logged w evs)) = Raises (NotAnException b))
               \/
               register_loop src ref items br1 ba1 (att ++ [name]) (logged w evs)
               = (of_result
                    (fst (Engine.register_loop src ref (items_within_Exception items)
                            br1 ba1 (att ++ [name]) (Engine.logged wb evs))),
                  mkWorld (engine w)
                    (Engine.events
                       (snd (Engine.register_loop src ref (items_within_Exception items)
                               br1 ba1 (att ++ [name]) (Engine.logged wb evs)))))).
    { intros br1 ba1 evs.
      destruct (IH br1 ba1 (att ++ [name]) (logged w evs) (Engine.logged wb evs))
        as [(n & a & b & Hin & Ha & Hrun) | Hrun].
      - exact Hcfg.
      - cbn. now rewrite Hev.
      - left. exists n, a, b. repeat split; [now right | exact Ha | exact Hrun].
      - right. exact Hrun. }
    cbn [items_within_Exception map fst snd].
    rewrite full_loop_step, Engine.loop_step_explicit. cbn [Engine.align within_Exception].
    destruct (align algo src ref) as [[r|]|[e|b]] eqn:Ha.
    + rewrite <- Hcfg.
      destruct (meets_thresholds (config (engine w)) r).
      * right. cbn. unfold logged. now rewrite Hev.
      * apply Hnext.
    + apply Hnext.
    + apply Hnext.
    + left. exists name, algo, b. repeat split; [now left | exact Ha].
Qed.

Lemma base_loop_keeps_engine src ref
    (items0 : list (string * Engine.AlgorithmBase Image Homography Metadata))
    br ba att wb :
  Engine.engine (snd (Engine.register_loop src ref items0 br ba att wb))
  = Engine.engine wb.
Proof.
  destruct (Engine.loop_trace src ref items0 br ba att wb) as (evs & -> & _).
  reflexivity.
Qed.

(** [register] either passes on an exception outside [Exception] that the
    [align] of an entry raised, or ends as the [register] of the model above
    does, with the same records logged. *)
Lemma register_passes_on_or_agrees src ref w :
  (exists name algo b,
      In (name, algo) (algorithms (engine w)) /\
      align algo src ref = Raises (NotAnException b) /\
      fst (register src ref w) = Raises (NotAnException b))
  \/
  (fst (register src ref w)
   = of_result (fst (Engine.register src ref (world_within_Exception w))) /\
   events (snd (register src ref w))
   = Engine.events (snd (Engine.register src ref (world_within_Exception w)))).
Proof.
  rewrite full_register_explicit, Engine.register_explicit.
  unfold Engine.started.
  replace (Dict.len (Engine.algorithms (Engine.engine (world_within_Exception w))))
    with (Dict.len (algorithms (engine w)))
    by (cbn; unfold items_within_Exception, Dict.len; now rewrite length_map).
  match goal with
  | |- context [register_loop src ref _ None None [] ?w1] =>
      match goal with
      | |- context [Engine.register_loop src ref _ None None [] ?w2] =>
          destruct (loop_passes_on_or_agrees src ref (algorithms (engine w))
                      None None [] w1 w2 eq_refl eq_refl)
            as [(name & algo & b & Hin & Ha & Hrun) | Hrun];
          [|pose proof (base_loop_keeps_engine src ref
                          (items_within_Exception (algorithms (engine w)))
                          None None [] w2) as Hkeep]
      end
  end.
  - left. exists name, algo, b. repeat split; [exact Hin | exact Ha|].
    destruct (register_loop src ref (algorithms (engine w)) None None [] _)
      as [[exit|x] w1]; cbn in Hrun; [discriminate|]. injection Hrun as ->.
    reflexivity.
  - right. cbn [Engine.algorithms Engine.engine world_within_Exception] in *.
    rewrite Hrun.
    destruct (Engine.register_loop src ref
                (items_within_Exception (algorithms (engine w))) None None [] _)
      as [[[out | [best|] ba att] | e] w1]; cbn in Hkeep |- *;
      try (split; reflexivity).
    rewrite Hkeep. cbn.
    destruct (enable_fallback (config (engine w))); cbn; [|split; reflexivity].
    destruct ba; split; reflexivity.
Qed.

(** Where no algorithm raises outside [Exception], the two models do the
    same. *)
Lemma register_agrees_within_Exception src ref w :
  (forall name algo b,
      In (name, algo) (algorithms (engine w)) ->
      align algo src ref <> Raises (NotAnException b)) ->
  fst (register src ref w)
  = of_result (fst (Engine.register src ref (world_within_Exception w))) /\
  events (snd (register src ref w))
  = Engine.events (snd (Engine.register src ref (world_within_Exception w))).
Proof.
  intros Hnone.
  destruct (register_passes_on_or_agrees src ref w)
    as [(name & algo & b & Hin & Ha & _) | Hsame]; [|exact Hsame].
  destruct (Hnone name algo b Hin Ha).
Qed.

End Simulation.

Section Raising.

Context {Image Homography Metadata : Type}.

Open Scope list_scope.

Implicit Types (w : World Image Homography Metadata).
Implicit Types (algo : AlgorithmBase Image Homography Metadata).
Implicit Types (src ref : Image).

Lemma in_items_within_Exception (name : string)
    (base : Engine.AlgorithmBase Image Homography Metadata)
    (items : list (string * AlgorithmBase Image Homography Metadata)) :
  In (name, base) (items_within_Exception items) ->
  exists algo, In (name, algo) items /\ base = within_Exception algo.
Proof.
  unfold items_within_Exception. intros Hin.
  apply in_map_iff in Hin as ([n a] & Heq & Hin). cbn in Heq.
  injection Heq as -> <-. now exists a.
Qed.

Lemma outcome_within_Exception algo src ref r :
  Engine.outcome (within_Exception algo) src ref = Some r <->
  align algo src ref = Returns (Some r).
Proof.
  unfold Engine.outcome. cbn.
  destruct (align algo src ref) as [[r'|]|[e|b]]; split; congruence.
Qed.

(** X2 -- [register] raises for three reasons only.  What [register]
    raises is: an exception outside [Exception] that the [align] of a
    registry entry raised, passed on as it is; or the error listing all
    names, when no entry returned a result; or, with fallback disabled and
    no returned result meeting the thresholds, the error reporting the
    result and the name of one of the entries.  So with fallback enabled, at
    least one result and no exception outside [Exception], [register]
    returns. *)
Theorem register_raises_for_three_reasons_only src ref w x :
  fst (register src ref w) = Raises x ->
  (exists name algo b,
      In (name, algo) (algorithms (engine w)) /\
      align algo src ref = Raises (NotAnException b) /\
      x = NotAnException b)
  \/
  ((forall name algo r,
       In (name, algo) (algorithms (engine w)) ->
       align algo src ref <> Returns (Some r)) /\
   x = AnException
         (RegistrationError (no_homography_message (map fst (algorithms (engine w))))))
  \/
  (enable_fallback (config (engine w)) = false /\
   (forall name algo r,
       In (name, algo) (algorithms (engine w)) ->
       align algo src ref = Returns (Some r) ->
       meets_thresholds (config (engine w)) r = false) /\
   exists name algo best,
     In (name, algo) (algorithms (engine w)) /\
     align algo src ref = Returns (Some best) /\
     x = AnException
           (RegistrationError
              (below_thresholds_message (config (engine w)) best (Some name)))).
Proof.
  intros Hraise.
  destruct (register_passes_on_or_agrees src ref w)
    as [(name & algo & b & Hin & Ha & Hrun) | [Hrun _]].
  - left. exists name, algo, b. rewrite Hrun in Hraise. injection Hraise as <-. auto.
  - right. rewrite Hrun in Hraise.
    destruct (fst (Engine.register src ref (world_within_Exception w)))
      as [out|e] eqn:Hbase; cbn in Hraise; [discriminate|].
    injection Hraise as <-.
    destruct (Engine.register_raises_only_without_usable_result src ref
                (world_within_Exception w) e Hbase)
      as [[Hempty ->] | (Hfb & Hrej & name & base & best & Hin & Ha & ->)].
    + left. split.
      * intros name algo r Hin Ha.
        assert (Hin' : In (name, within_Exception algo)
                          (items_within_Exception (algorithms (engine w)))).
        { unfold items_within_Exception. apply in_map_iff. now exists (name, algo). }
        pose proof (Hempty name (within_Exception algo) Hin') as Hnone.
        apply outcome_within_Exception in Ha. congruence.
      * cbn. unfold items_within_Exception. rewrite map_map. cbn.
        reflexivity.
    + right. cbn in Hfb, Hrej, Hin. split; [exact Hfb|]. split.
      * intros n a r Hin' Ha'.
        assert (Hin'' : In (n, within_Exception a)
                           (items_within_Exception (algorithms (engine w)))).
        { unfold items_within_Exception. apply in_map_iff. now exists (n, a). }
        rewrite Forall_forall in Hrej. apply (Hrej _ Hin''). cbn.
        now apply outcome_within_Exception.
      * destruct (in_items_within_Exception name base _ Hin) as (algo & Hin' & ->).
        exists name, algo, best. split; [exact Hin'|]. split; [|reflexivity].
        apply outcome_within_Exception, Engine.outcome_align, Ha.
Qed.

End Raising.

(** *** At a concrete engine *)

(** The engine of [test_algorithm_exception_handled], with an algorithm
    that is interrupted where the test's algorithm raises a
    [RuntimeError]. *)
Definition Interrupted : AlgorithmBase unit Matrix Meta :=
  mkAlgorithm (fun _ _ => Raises (NotAnException KeyboardInterrupt)).

Definition Finds (result : RegistrationResult Matrix Meta)
  : AlgorithmBase unit Matrix Meta :=
  mkAlgorithm (fun _ _ => Returns (Some result)).

Definition interrupted_first : World unit Matrix Meta :=
  mkWorld (mkEngine [("FailAlgo"%string, Interrupted);
                     ("SIFT"%string, Finds good_result)] default_config) [].


Lemma register_raises_reasons_witness :
  (exists name algo b,
      In (name, algo) (algorithms (engine interrupted_first)) /\
      align algo tt tt = Raises (NotAnException b) /\
      NotAnException KeyboardInterrupt = NotAnException b)
  \/
  ((forall name algo r,
       In (name, algo) (algorithms (engine interrupted_first)) ->
       align algo tt tt <> Returns (Some r)) /\
   NotAnException KeyboardInterrupt
   = AnException
       (RegistrationError
          (no_homography_message (map fst (algorithms (engine interrupted_first))))))
  \/
  (enable_fallback (config (engine interrupted_first)) = false /\
   (forall name algo r,
       In (name, algo) (algorithms (engine interrupted_first)) ->
       align algo tt tt = Returns (Some r) ->
       meets_thresholds (config (engine interrupted_first)) r = false) /\
   exists name algo best,
     In (name, algo) (algorithms (engine interrupted_first)) /\
     align algo tt tt = Returns (Some best) /\
     NotAnException KeyboardInterrupt
     = AnException
         (RegistrationError
            (below_thresholds_message (config (engine interrupted_first))
                                      best (Some name)))).
Proof.
  apply (register_raises_for_three_reasons_only tt tt interrupted_first).
  vm_compute. reflexivity.
Defined.

(** With a [RuntimeError] in place of the interrupt the two models agree:
    this is [test_algorithm_exception_handled]. *)
Example exception_is_absorbed_in_both_models :
  fst (register tt tt
         (mkWorld (mkEngine [("FailAlgo"%string,
                              mkAlgorithm (fun _ _ =>
                                Raises (AnException
                                          (RuntimeError "Simulated algorithm failure"))));
                             ("SIFT"%string, Finds good_result)] default_config) []))
  = of_result (fst (Engine.register tt tt faulty_first)).
Proof. vm_compute. reflexivity. Qed.

End Full.

End Engine.
